(** * Perception study (experiment.js): a shallow embedding and its properties

    The development follows the layout of [src/experiment.js]:
    utilities and the filename codec, identity resolution, the persistence
    hooks, the per-trial slider gate, and the construction of the timeline.
    Definitions come first, statements about them afterwards. *)

From Stdlib Require Import String Ascii NArith Lia DecimalString.
From Stdlib Require Import DecimalPos DecimalN NArithRing.
From stdpp Require Import base option list strings.

Local Open Scope string_scope.

(* ===================================================================== *)
(** ** JavaScript strings *)
(* ===================================================================== *)

(** Strings are sequences of code units.  Every character the program
    inspects (separators, letters, digits, ['%']) is ASCII, so a string is
    kept as its sequence of bytes. *)

Definition is_digit (c : ascii) : bool :=
  (48 <=? nat_of_ascii c)%nat && (nat_of_ascii c <=? 57)%nat.

Definition is_lower (c : ascii) : bool :=
  (97 <=? nat_of_ascii c)%nat && (nat_of_ascii c <=? 122)%nat.

(** [Canonicalize] of a case-insensitive pattern without the unicode flag:
    the upper-case form of the character; only ASCII letters are folded onto
    ASCII letters. *)
Definition canonicalize (c : ascii) : ascii :=
  if is_lower c then ascii_of_nat (nat_of_ascii c - 32) else c.

Definition ascii_eqb_i (ignoreCase : bool) (a b : ascii) : bool :=
  if ignoreCase then Ascii.eqb (canonicalize a) (canonicalize b)
  else Ascii.eqb a b.

(** [s.split(sep)] for a one-character separator: the pieces between the
    occurrences of [sep]; never the empty array. *)
Fixpoint split (sep : ascii) (s : string) : list string :=
  match s with
  | EmptyString => [EmptyString]
  | String c s' =>
      if Ascii.eqb c sep then EmptyString :: split sep s'
      else match split sep s' with
           | [] => [String c EmptyString]
           | piece :: rest => String c piece :: rest
           end
  end.

(** [arr.pop()] as used on a fresh array: its last element, [undefined]
    ([None]) on the empty array. *)
Definition pop (arr : list string) : option string := last arr.

(** The first [n] code units of [s]. *)
Fixpoint take_string (n : nat) (s : string) : string :=
  match n, s with
  | S n', String c s' => String c (take_string n' s')
  | _, _ => EmptyString
  end.

(** Decimal rendering of a number inside a template literal.  JavaScript
    numbers are doubles: the rendering is the plain decimal numeral for the
    natural numbers up to [Number.MAX_SAFE_INTEGER] = 2^53 - 1 (the faces of
    the study are 1 to 6), and the definition is meant for these only;
    beyond, a double no longer holds every number and, from 1e21 on, is
    rendered with an exponent. *)
Definition number_to_string (n : N) : string :=
  NilEmpty.string_of_uint (N.to_uint n).

Definition digit_value (c : ascii) : N := N.of_nat (nat_of_ascii c - 48).

(** [parseInt(s, 10)] on a string of decimal digits (the only strings it is
    applied to here, group 2 of the pattern being [\d+]).  The definition is
    meant for numerals that denote at most [Number.MAX_SAFE_INTEGER]
    = 2^53 - 1, far above any face number of the study: there the result
    is the number denoted; beyond, JavaScript rounds it to a double. *)
Definition parseInt10 (s : string) : N :=
  fold_left (fun acc c => (10 * acc + digit_value c)%N) (list_ascii_of_string s) 0%N.

(* ===================================================================== *)
(** ** Regular expressions: a backtracking matcher with capture groups *)
(* ===================================================================== *)

Inductive regex : Type :=
| RBol                              (* ^ *)
| REol                              (* $ *)
| REps                              (* the empty pattern *)
| RChar (c : ascii)                 (* a literal character *)
| RClass (cs : list ascii)          (* [...] *)
| RDigit                            (* \d *)
| RSeq (r1 r2 : regex)              (* r1 r2 *)
| RAlt (r1 r2 : regex)              (* r1|r2 *)
| ROpt (r : regex)                  (* r? and (?:r)?, greedy *)
| RPlus (r : regex)                 (* r+, greedy *)
| RGroup (i : nat) (r : regex).     (* the i-th capturing group (r) *)

(** Captured substrings, most recent binding first. *)
Definition captures := list (nat * string).

Fixpoint group (i : nat) (m : captures) : option string :=
  match m with
  | [] => None
  | (j, s) :: m' => if Nat.eqb i j then Some s else group i m'
  end.

Definition orelse {A} (x y : option A) : option A :=
  match x with Some _ => x | None => y end.

(** The repetition of a step, greedy: after one round, another round is
    tried first, provided the round consumed input, and the continuation
    only then.  [fuel] bounds the rounds; one more than the length of the
    input is never used up. *)
Fixpoint iterate
    (step : string -> captures -> (string -> captures -> option captures) -> option captures)
    (k : string -> captures -> option captures)
    (fuel : nat) (s : string) (m : captures) {struct fuel} : option captures :=
  match fuel with
  | O => None
  | S fuel' =>
      step s m (fun s' m' =>
        orelse (if (String.length s' <? String.length s)%nat
                then iterate step k fuel' s' m' else None)
               (k s' m'))
  end.

(** [rmatch ic total r s m k] matches [r] at the front of the remaining
    input [s] ([total] is the length of the whole input, for [^]) and hands
    the rest to the continuation [k]; alternatives are tried in priority
    order, the first overall success wins. *)
Fixpoint rmatch (ic : bool) (total : nat) (r : regex) (s : string) (m : captures)
    (k : string -> captures -> option captures) {struct r} : option captures :=
  match r with
  | RBol => if Nat.eqb (String.length s) total then k s m else None
  | REol => match s with EmptyString => k s m | _ => None end
  | REps => k s m
  | RChar c =>
      match s with
      | String x s' => if ascii_eqb_i ic c x then k s' m else None
      | EmptyString => None
      end
  | RClass cs =>
      match s with
      | String x s' => if existsb (fun c => ascii_eqb_i ic c x) cs then k s' m else None
      | EmptyString => None
      end
  | RDigit =>
      match s with
      | String x s' => if is_digit x then k s' m else None
      | EmptyString => None
      end
  | RSeq r1 r2 => rmatch ic total r1 s m (fun s' m' => rmatch ic total r2 s' m' k)
  | RAlt r1 r2 => orelse (rmatch ic total r1 s m k) (rmatch ic total r2 s m k)
  | ROpt r1 => orelse (rmatch ic total r1 s m k) (k s m)
  | RPlus r1 => iterate (rmatch ic total r1) k (S (String.length s)) s m
  | RGroup i r1 =>
      rmatch ic total r1 s m (fun s' m' =>
        k s' ((i, take_string (String.length s - String.length s') s) :: m'))
  end.

(** The suffixes of the input, one per start position. *)
Fixpoint suffixes (s : string) : list string :=
  s :: match s with EmptyString => [] | String _ s' => suffixes s' end.

(** [str.match(re)] without the global flag: the captures of the leftmost
    match, [null] ([None]) when no start position matches. *)
Definition str_match (ic : bool) (re : regex) (str : string) : option captures :=
  let total := String.length str in
  fold_right (fun s later => orelse (rmatch ic total re s [] (fun _ m => Some m)) later)
             None (suffixes str).

Fixpoint rstr (s : string) : regex :=
  match s with
  | EmptyString => REps
  | String c EmptyString => RChar c
  | String c s' => RSeq (RChar c) (rstr s')
  end.

Fixpoint rseq (rs : list regex) : regex :=
  match rs with
  | [] => REps
  | [r] => r
  | r :: rs' => RSeq r (rseq rs')
  end.

(* ===================================================================== *)
(** ** Basic options and the filename codec *)
(* ===================================================================== *)

Definition IMAGE_EXT : string := ".png".

Definition NUM_FACES_PER_SEX : N := 6.
Definition HEIGHT_CODES : list string := ["1"; "2"; "3"].
Definition ATTR_CODES : list string := [""; ".2"; ".3"].

(** The values of the loop variable of [for (face = 1; face <= n; face++)]. *)
Definition faces_upto (n : N) : list N := map N.of_nat (seq 1 (N.to_nat n)).

(** The template literal of [buildFiles]. *)
Definition fileName (sexTag : string) (face : N) (h a : string) : string :=
  sexTag ++ "." ++ number_to_string face ++ "_" ++ h ++ a ++ IMAGE_EXT.

Definition buildFiles (sexTag : string) : list string :=
  face ← faces_upto NUM_FACES_PER_SEX;
  h ← HEIGHT_CODES;
  a ← ATTR_CODES;
  [fileName sexTag face h a].

Definition maleFiles : list string := buildFiles "M.F".
Definition femaleFiles : list string := buildFiles "F.F".

Definition malePaths : list string := map (fun f => "all_images/" ++ f) maleFiles.
Definition femalePaths : list string := map (fun f => "all_images/" ++ f) femaleFiles.

(** [/^([FM]\.F)\.(\d+)_([123])(?:\.([23]))?\.(png|jpg|jpeg)$/i] *)
Definition META_RE : regex :=
  rseq [ RBol;
         RGroup 1 (rseq [RClass ["F"; "M"]%char; RChar "."; RChar "F"]);
         RChar ".";
         RGroup 2 (RPlus RDigit);
         RChar "_";
         RGroup 3 (RClass ["1"; "2"; "3"]%char);
         ROpt (rseq [RChar "."; RGroup 4 (RClass ["2"; "3"]%char)]);
         RChar ".";
         RGroup 5 (RAlt (rstr "png") (RAlt (rstr "jpg") (rstr "jpeg")));
         REol ].

Record meta : Type := Meta {
  sex : option string;
  face_id : option N;
  height_code : option string;
  height_label : option string;
  attract_code : option string;
  attract_label : option string
}.

(** [a || b] on strings: the empty string is falsy. *)
Definition str_or {A} (a : string) (truthy : string -> A) (falsy : A) : A :=
  match a with EmptyString => falsy | _ => truthy a end.

Definition parseMeta (imgPath : string) : meta :=
  let name := default "" (pop (split "/" imgPath)) in
  let m := str_match true META_RE name in
  let meta0 := Meta None None None None None None in
  match m with
  | None => meta0
  | Some m =>
      let tag := default "" (group 1 m) in
      let face := parseInt10 (default "" (group 2 m)) in
      let h := default "" (group 3 m) in
      let a := match group 4 m with Some a => str_or a id "" | None => "" end in
      {| sex := Some (if String.eqb tag "F.F" then "Female" else "Male");
         face_id := Some face;
         height_code := Some h;
         height_label := Some (if String.eqb h "1" then "Tall"
                               else if String.eqb h "2" then "Average" else "Short");
         attract_code := str_or a Some None;
         attract_label := Some (if String.eqb a "" then "Attractive"
                                else if String.eqb a "2" then "LessAttractive"
                                else "VeryUnattractive") |}
  end.

(* ===================================================================== *)
(** ** Identity resolution *)
(* ===================================================================== *)

(** A call either returns or throws. *)
Inductive completion (A : Type) : Type :=
| Return (a : A)
| Throw (error : string).
Arguments Return {A} a.
Arguments Throw {A} error.

Definition bind_completion {A B} (c : completion A) (f : A -> completion B) : completion B :=
  match c with Return a => f a | Throw e => Throw e end.

Definition hex_value (c : ascii) : option nat :=
  let n := nat_of_ascii c in
  if is_digit c then Some (n - 48)%nat
  else if (65 <=? n)%nat && (n <=? 70)%nat then Some (n - 55)%nat
  else if (97 <=? n)%nat && (n <=? 102)%nat then Some (n - 87)%nat
  else None.

(** The octet written [%XY] at the front of [s], with the rest of [s]. *)
Definition escaped_octet (s : string) : option (nat * string) :=
  match s with
  | String "%" (String x (String y rest)) =>
      match hex_value x, hex_value y with
      | Some hi, Some lo => Some ((16 * hi + lo)%nat, rest)
      | _, _ => None
      end
  | _ => None
  end.

(** [n] further escaped octets. *)
Fixpoint escaped_octets (n : nat) (s : string) : option (list nat * string) :=
  match n with
  | O => Some ([], s)
  | S n' =>
      match escaped_octet s with
      | Some (b, rest) =>
          match escaped_octets n' rest with
          | Some (bs, rest') => Some (b :: bs, rest')
          | None => None
          end
      | None => None
      end
  end.

Definition in_range (lo hi b : nat) : bool := (lo <=? b)%nat && (b <=? hi)%nat.

(** Whether the octets are the UTF-8 encoding of one code point. *)
Definition valid_utf8 (octets : list nat) : bool :=
  match octets with
  | [b0] => (b0 <? 128)%nat
  | [b0; b1] => in_range 194 223 b0 && in_range 128 191 b1
  | [b0; b1; b2] =>
      in_range 128 191 b2 &&
      ((Nat.eqb b0 224 && in_range 160 191 b1)
       || (in_range 225 236 b0 && in_range 128 191 b1)
       || (Nat.eqb b0 237 && in_range 128 159 b1)
       || (in_range 238 239 b0 && in_range 128 191 b1))
  | [b0; b1; b2; b3] =>
      in_range 128 191 b2 && in_range 128 191 b3 &&
      ((Nat.eqb b0 240 && in_range 144 191 b1)
       || (in_range 241 243 b0 && in_range 128 191 b1)
       || (Nat.eqb b0 244 && in_range 128 143 b1))
  | _ => false
  end.

(** The number of continuation octets announced by a leading octet with its
    high bit set; [None] where no sequence can start. *)
Definition continuation_count (b0 : nat) : option nat :=
  if in_range 192 223 b0 then Some 1%nat
  else if in_range 224 239 b0 then Some 2%nat
  else if in_range 240 247 b0 then Some 3%nat
  else None.

Definition string_of_octets (octets : list nat) : string :=
  string_of_list_ascii (map ascii_of_nat octets).

(** [decodeURIComponent]: every escape sequence is replaced by the character
    it encodes, everything else is copied; a ['%'] that does not start a
    well-formed escape, or escapes that are not UTF-8, throw a URIError. *)
Fixpoint decode_loop (fuel : nat) (s : string) : completion string :=
  match fuel with
  | O => Return ""
  | S fuel' =>
      match s with
      | EmptyString => Return ""
      | String c rest =>
          if negb (Ascii.eqb c "%") then
            bind_completion (decode_loop fuel' rest) (fun tl => Return (String c tl))
          else
            match escaped_octet s with
            | None => Throw "URIError"
            | Some (b0, rest) =>
                if (b0 <? 128)%nat then
                  bind_completion (decode_loop fuel' rest)
                    (fun tl => Return (String (ascii_of_nat b0) tl))
                else
                  match continuation_count b0 with
                  | None => Throw "URIError"
                  | Some n =>
                      match escaped_octets n rest with
                      | None => Throw "URIError"
                      | Some (bs, rest') =>
                          if valid_utf8 (b0 :: bs) then
                            bind_completion (decode_loop fuel' rest')
                              (fun tl => Return (string_of_octets (b0 :: bs) ++ tl))
                          else Throw "URIError"
                      end
                  end
            end
      end
  end.

Definition decodeURIComponent (s : string) : completion string :=
  decode_loop (String.length s) s.

(** [new URLSearchParams(location.search)]: the list of name/value pairs of
    the query, already percent-decoded by the browser.  [get] answers the
    value of the first pair with that name, [null] when there is none. *)
Definition URLSearchParams := list (string * string).

Fixpoint get (params : URLSearchParams) (name : string) : option string :=
  match params with
  | [] => None
  | (n, v) :: rest => if String.eqb n name then Some v else get rest name
  end.

Definition truthy (o : option string) : bool :=
  match o with
  | Some (String _ _) => true
  | _ => false
  end.

Definition getParam (search : URLSearchParams) (name : string) : completion (option string) :=
  let m := get search name in
  if truthy m then
    bind_completion (decodeURIComponent (default "" m)) (fun s => Return (Some s))
  else Return None.

(** What [safeUUID] reads from the page: [crypto.randomUUID] (absent, or
    throwing, or answering), [Math.random().toString(36)] and
    [Date.now().toString(36)]. *)
Record entropy : Type := Entropy {
  crypto_randomUUID : option (completion string);
  math_random_36 : string;
  date_now_36 : string
}.

Definition slice_from (n : nat) (s : string) : string :=
  string_of_list_ascii (drop n (list_ascii_of_string s)).

Definition safeUUID (e : entropy) : string :=
  match crypto_randomUUID e with
  | Some (Return uuid) => uuid
  | _ => "pid_" ++ slice_from 2 (math_random_36 e) ++ date_now_36 e
  end.

(** [a || b], with [b] evaluated only when [a] is falsy. *)
Definition or_else (a : completion (option string)) (b : completion (option string))
  : completion (option string) :=
  bind_completion a (fun v => if truthy v then Return v else b).

Definition participant_id (search : URLSearchParams) (e : entropy) : completion (option string) :=
  or_else (getParam search "pid")
    (or_else (getParam search "workerId")
       (or_else (getParam search "PROLIFIC_PID")
          (Return (Some (safeUUID e))))).

(* ===================================================================== *)
(** ** JavaScript values and objects *)
(* ===================================================================== *)

#[local] Unset Elimination Schemes.
Inductive value : Type :=
| VUndefined
| VNull
| VNaN
| VNum (n : N)
| VStr (s : string)
| VServerTimestamp                       (* firebase.database.ServerValue.TIMESTAMP *)
| VObj (fields : list (string * value))  (* own properties, in insertion order *)
| VArr (items : list value).
#[local] Set Elimination Schemes.

Definition obj := list (string * value).

(** [o.key]: [undefined] when the property is absent. *)
Fixpoint prop (key : string) (o : obj) : value :=
  match o with
  | [] => VUndefined
  | (k, v) :: o' => if String.eqb k key then v else prop key o'
  end.

Definition keys (o : obj) : list string := map fst o.

(** [o.key = v]: an existing property keeps its place, a new one goes last. *)
Fixpoint set_prop (key : string) (v : value) (o : obj) : obj :=
  match o with
  | [] => [(key, v)]
  | (k, w) :: o' => if String.eqb k key then (k, v) :: o' else (k, w) :: set_prop key v o'
  end.

(** The object literal [{...a, ...b}]. *)
Definition spread (a b : obj) : obj :=
  fold_left (fun o kv => set_prop (fst kv) (snd kv) o) b a.

(** [v?.key] *)
Definition opt_prop (v : value) (key : string) : value :=
  match v with
  | VObj o => prop key o
  | _ => VUndefined
  end.

Definition all_digits (s : string) : bool :=
  forallb is_digit (list_ascii_of_string s).

(** [Number(v)]: exact on [undefined], [null], numbers and strings of
    decimal digits that denote at most [Number.MAX_SAFE_INTEGER] = 2^53 - 1,
    which covers what the form of a rating trial yields (the value of a
    range input between 1 and 7).  The definition is meant for these values
    only: a longer numeral is rounded to a double by JavaScript, and every
    other string, and every object, is taken to NaN here, where JavaScript
    would still read some of them (a sign, a decimal point, an exponent, a
    hexadecimal numeral, surrounding blanks, a one-element array). *)
Definition Number (v : value) : value :=
  match v with
  | VNum n => VNum n
  | VNull => VNum 0
  | VStr EmptyString => VNum 0
  | VStr s => if all_digits s then VNum (parseInt10 s) else VNaN
  | _ => VNaN
  end.

Definition of_option {A} (f : A -> value) (o : option A) : value :=
  match o with Some a => f a | None => VNull end.

(** The object built by [parseMeta], as spread into a trial's data. *)
Definition meta_obj (m : meta) : obj :=
  [ ("sex", of_option VStr (sex m));
    ("face_id", of_option VNum (face_id m));
    ("height_code", of_option VStr (height_code m));
    ("height_label", of_option VStr (height_label m));
    ("attract_code", of_option VStr (attract_code m));
    ("attract_label", of_option VStr (attract_label m)) ].

(* ===================================================================== *)
(** ** Sign-in before the run *)
(* ===================================================================== *)

(** What the authentication service reports to the page: a change of the
    signed-in user (the callback given to [onAuthStateChanged], called with
    the user or with [null]), or the rejection of [signInAnonymously]. *)
Inductive auth_event : Type :=
| AuthStateChanged (user : option string)
| SignInFailed.

(** The variable [fbUser]; the promise returned by [ensureFirebaseAuth],
    unsettled or resolved with a user or [null]; the warnings logged; and
    how many times the callback chained with [finally], the one that calls
    [jsPsych.run], has been started. *)
Record auth : Type := Auth {
  fbUser : option string;
  resolved : option (option string);
  warned : list string;
  started : nat
}.

(** [resolve(v)]: the first call settles the promise, which starts the
    chained callback; a promise settles once, so later calls do nothing. *)
Definition resolve (v : option string) (a : auth) : auth :=
  match resolved a with
  | Some _ => a
  | None => Auth (fbUser a) (Some v) (warned a) (S (started a))
  end.

Definition auth_step (a : auth) (ev : auth_event) : auth :=
  match ev with
  | AuthStateChanged user => resolve user (Auth user (resolved a) (warned a) (started a))
  | SignInFailed =>
      resolve None (Auth (fbUser a) (resolved a)
                      (warned a ++ ["Anonymous sign-in failed:"])%list (started a))
  end.

(** [ensureFirebaseAuth().finally(...)] under the reports [evs], taken in
    the order they arrive. *)
Definition ensureFirebaseAuth (evs : list auth_event) : auth :=
  fold_left auth_step evs (Auth None None [] 0).

(* ===================================================================== *)
(** ** The hosted backend, the console and the clock *)
(* ===================================================================== *)

(** How the backend settles one write: acknowledged or rejected after some
    milliseconds, or never settled. *)
Inductive settlement : Type :=
| Acked (latency : N)
| Rejected (latency : N)
| Pending.

Inductive event : Type :=
| Push (collection : string) (payload : value)    (* db.ref(collection).push(payload) is called *)
| Stored (collection : string) (payload : value)  (* the backend has appended the record *)
| Console (level : string) (message : string)
| Navigate (url : string).                        (* window.location.href = url *)

(** The page while the experiment runs: the time in milliseconds, the
    runner's data store and the timestamped effects so far, in the order the
    program causes them. *)
Record world : Type := World {
  now : N;
  allData : list obj;
  trace : list (N * event)
}.

Definition emit (t : N) (e : event) (w : world) : world :=
  World (now w) (allData w) (trace w ++ [(t, e)])%list.

Definition advance (d : N) (w : world) : world :=
  World (now w + d) (allData w) (trace w).

Definition CLOUDRESEARCH_COMPLETION_URL : string := "".

(** What the session is started with. *)
Record config : Type := Config {
  completion_url : string;          (* CLOUDRESEARCH_COMPLETION_URL *)
  pid : string                      (* the resolved participant_id *)
}.

(** [saveTrialRow]: the write is issued at once; the caller does not wait.
    Its settlement later appends the record or, on rejection, is caught and
    logged with [console.warn]; nothing else happens and nothing is issued
    again. *)
Definition saveTrialRow (how : settlement) (row : obj) (w : world) : world :=
  let w1 := emit (now w) (Push "responses_stream" (VObj row)) w in
  match how with
  | Acked d => emit (now w + d) (Stored "responses_stream" (VObj row)) w1
  | Rejected d => emit (now w + d) (Console "warn" "Partial save failed:") w1
  | Pending => w1
  end.

Definition ratings (response : value) : obj :=
  [ ("Q1", Number (opt_prop response "Q1"));
    ("Q2", Number (opt_prop response "Q2"));
    ("Q3", Number (opt_prop response "Q3"));
    ("Q4", Number (opt_prop response "Q4")) ].

(** The properties copied from a recorded trial into both kinds of row. *)
Definition trial_columns (data : obj) : obj :=
  ([ ("block", prop "block" data);
    ("image", prop "image" data);
    ("sex", prop "sex" data);
    ("face_id", prop "face_id" data);
    ("height_label", prop "height_label" data);
    ("attract_label", prop "attract_label" data);
    ("rt", prop "rt" data) ] ++ ratings (prop "response" data))%list.

Definition is_survey (data : obj) : bool :=
  match prop "trial_type" data with
  | VStr t => String.eqb t "survey-html-form"
  | _ => false
  end.

(** The hook run after every step of the timeline. *)
Definition on_trial_finish (c : config) (how : settlement) (data : obj) (w : world) : world :=
  if is_survey data then
    saveTrialRow how
      ([("participant_id", VStr (pid c)); ("createdAt", VServerTimestamp)] ++ trial_columns data)%list w
  else w.

(** [jsPsych.data.get().filter({trial_type: 'survey-html-form'}).values().map(...)] *)
Definition final_trials (w : world) : list value :=
  map (fun row => VObj (trial_columns row)) (filter (fun row => is_survey row = true) (allData w)).

Definition final_payload (c : config) (w : world) : obj :=
  [ ("participant_id", VStr (pid c));
    ("trials", VArr (final_trials w));
    ("client_version", VStr "v1");
    ("createdAt", VServerTimestamp) ].

(** The hook run once after the last step.  The write is awaited: the rest
    runs when it settles, and never if it does not. *)
Definition on_finish (c : config) (how : settlement) (w : world) : world :=
  let payload := VObj (final_payload c w) in
  let w1 := emit (now w) (Push "responses" payload) w in
  let redirect (w : world) : world :=
    str_or (completion_url c)
      (fun url => emit (now w + 1200) (Navigate url) w) w in
  match how with
  | Acked d =>
      let w2 := advance d w1 in
      let w3 := emit (now w2) (Stored "responses" payload) w2 in
      redirect (emit (now w3) (Console "log" "Firebase final save OK") w3)
  | Rejected d =>
      let w2 := advance d w1 in
      redirect (emit (now w2) (Console "error" "Firebase final save failed:") w2)
  | Pending => w1
  end.

(* ===================================================================== *)
(** ** Screens *)
(* ===================================================================== *)

(** A step of the timeline, by plugin.  The markup of a page is reduced to
    what tells the pages apart: a heading, a stimulus path, button labels. *)
Inductive screen : Type :=
| Fullscreen (fullscreen_mode : bool)
| Preload (images : list string)
| Instructions (heading : string) (button_label_next : string)
| SurveyHtmlForm (stimulus : string) (button_label : string) (data : obj).

(** [trial.type.info.name] *)
Definition plugin_name (s : screen) : string :=
  match s with
  | Fullscreen _ => "fullscreen"
  | Preload _ => "preload"
  | Instructions _ _ => "instructions"
  | SurveyHtmlForm _ _ _ => "survey-html-form"
  end.

Definition screen_data (s : screen) : obj :=
  match s with
  | SurveyHtmlForm _ _ data => data
  | _ => []
  end.

Definition preload : screen := Preload (malePaths ++ femalePaths)%list.
Definition fullscreen : screen := Fullscreen true.
Definition welcome : screen := Instructions "Welcome" "Continue".
Definition instructions : screen := Instructions "Instructions" "Start".
Definition thankYou : screen := Instructions "Thank you!" "Finish".

Definition makeBlockIntro (label : string) : screen :=
  Instructions (label ++ " Images") "Continue".

Definition questionTexts : list string :=
  [ "How attractive is this person?";
    "How tall is this person?";
    "How athletic is this person?";
    "How intelligent is this person?" ].

Definition makeImageTrial (blockLabel imgPath : string) : screen :=
  SurveyHtmlForm imgPath "Continue"
    (spread [("block", VStr blockLabel); ("image", VStr imgPath)] (meta_obj (parseMeta imgPath))).

(* ===================================================================== *)
(** ** The slider gate of a trial page ([on_load]) *)
(* ===================================================================== *)

(** A range input: its [data-touched] attribute and the event types that
    still carry a one-shot listener running [mark]. *)
Record slider : Type := Slider {
  name : string;
  touched : option string;
  listeners : list string
}.

(** The part of the page the gate reads and writes: the submit button (its
    [disabled] flag) when there is one, the message inserted before it (its
    [display] style), and the range inputs in document order. *)
Record page : Type := Page {
  btn : option bool;
  msg : option string;
  sliders : list slider
}.

(** [htmlBlock]: the four sliders of an image trial, each with the name of
    its form field and its question. *)
Definition htmlBlock : list (string * string) :=
  [ ("Q1", default "" (questionTexts !! 0%nat));
    ("Q2", default "" (questionTexts !! 1%nat));
    ("Q3", default "" (questionTexts !! 2%nat));
    ("Q4", default "" (questionTexts !! 3%nat)) ].

(** The page of an image trial as rendered: an enabled Continue button and
    the range inputs of [htmlBlock]. *)
Definition trial_page : page :=
  Page (Some false) None (map (fun q => Slider (fst q) None []) htmlBlock).

Definition mark_events : list string :=
  ["input"; "change"; "pointerdown"; "mousedown"; "touchstart"; "focus"; "keydown"].

Definition is_touched (s : slider) : bool :=
  match touched s with
  | Some t => String.eqb t "1"
  | None => false
  end.

Definition checkAllTouched (p : page) : page :=
  let ok := forallb is_touched (sliders p) in
  Page (Some (negb ok)) (Some (if ok then "none" else "block")) (sliders p).

Definition on_load (p : page) : page :=
  match btn p with
  | None => p
  | Some _ =>
      let p1 := Page (Some true) (Some "") (sliders p) in
      let p2 := Page (btn p1) (msg p1)
                     (map (fun s => Slider (name s) (Some "0") (listeners s)) (sliders p1)) in
      let p3 := Page (btn p2) (msg p2)
                     (map (fun s => Slider (name s) (touched s) (listeners s ++ mark_events)%list)
                          (sliders p2)) in
      checkAllTouched p3
  end.

Definition string_in (x : string) (l : list string) : bool :=
  existsb (String.eqb x) l.

Definition remove_string (x : string) (l : list string) : list string :=
  filter (fun y => String.eqb x y = false) l.

(** An event of type [type] on the [i]-th range input: when a listener is
    registered for it, it is removed (once) and [mark] runs. *)
Definition dispatch (p : page) (ev : nat * string) : page :=
  let '(i, type) := ev in
  match sliders p !! i with
  | Some s =>
      if string_in type (listeners s) then
        let s' := Slider (name s) (Some "1") (remove_string type (listeners s)) in
        checkAllTouched (Page (btn p) (msg p) (<[i := s']> (sliders p)))
      else p
  | None => p
  end.

Definition gate_run (evs : list (nat * string)) : page :=
  fold_left dispatch evs (on_load trial_page).

(** The advance action is disabled. *)
Definition locked (p : page) : bool := default false (btn p).

(* ===================================================================== *)
(** ** Randomization and the timeline *)
(* ===================================================================== *)

(** The source of randomness: the successive draws, the [k]-th standing for
    [Math.floor(Math.random() * m)] once reduced below [m]. *)
Definition rng := nat -> nat.

Definition skip (n : nat) (g : rng) : rng := fun k => g (n + k)%nat.

(** Modelled from the spec: the runner's own [randomization.shuffle], of
    which the repository holds only the calls.  The spec asks for a uniform
    random permutation utility; this is the in-place exchange shuffle on a
    copy of the array: while [m] elements remain, draw [i] below [m], step
    [m] down and exchange the elements at [m] and [i]. *)
Fixpoint shuffle_loop {A} (m : nat) (g : rng) (a : list A) : list A :=
  match m with
  | O => a
  | S m' =>
      let i := (g 0%nat mod S m')%nat in
      match a !! m', a !! i with
      | Some t, Some x => shuffle_loop m' (skip 1 g) (<[i := t]> (<[m' := x]> a))
      | _, _ => a
      end
  end.

(** Modelled from the spec: [jsPsych.randomization.shuffle(array)], the loop
    above run over the whole array. *)
Definition shuffle {A} (g : rng) (array : list A) : list A :=
  shuffle_loop (length array) g array.

Definition makeBlockTrials (g : rng) (label : string) (paths : list string) : list screen :=
  let trials := map (makeImageTrial label) paths in
  shuffle g trials.

Record block : Type := Block {
  intro : screen;
  trials : list screen
}.

Definition maleIntro : screen := makeBlockIntro "Male".
Definition femaleIntro : screen := makeBlockIntro "Female".

Definition maleTrials (g : rng) : list screen := makeBlockTrials g "Male" malePaths.
Definition femaleTrials (g : rng) : list screen :=
  makeBlockTrials (skip (length malePaths) g) "Female" femalePaths.

Definition blocks (g : rng) : list block :=
  shuffle (skip (length malePaths + length femalePaths) g)
    [ Block maleIntro (maleTrials g); Block femaleIntro (femaleTrials g) ].

(** [blocks[0]] and [blocks[1]] are read unguarded: a missing element would
    be a TypeError. *)
Definition timeline (g : rng) : completion (list screen) :=
  match blocks g !! 0%nat, blocks g !! 1%nat with
  | Some b0, Some b1 =>
      Return ([fullscreen] ++ [preload; welcome; instructions]
              ++ (intro b0 :: trials b0)
              ++ (intro b1 :: trials b1)
              ++ [thankYou])%list
  | _, _ => Throw "TypeError"
  end.

(* ===================================================================== *)
(** ** The runner and a whole session *)
(* ===================================================================== *)

(** What a session meets: the query of the page, the entropy sources, the
    participant (what each step records, how long it takes, how many steps
    are completed before the page is left) and the backend (how the write
    streamed at each step, and the final one, settle). *)
Record session_input : Type := SessionInput {
  search : URLSearchParams;
  ent : entropy;
  random : rng;
  redirect_url : string;
  recorded : nat -> obj;
  elapsed : nat -> N;
  completed : nat;
  stream_settles : nat -> settlement;
  final_settles : settlement
}.

(** Modelled from the spec: the runner's data store.  The record of a step
    is what its plugin recorded, then the metadata bag attached to the step,
    then the runner's own columns, then the session properties. *)
Definition write (c : config) (index : nat) (s : screen) (plugin_data : obj) (w : world) : obj :=
  spread (spread (spread plugin_data (screen_data s))
            [ ("trial_type", VStr (plugin_name s));
              ("trial_index", VNum (N.of_nat index));
              ("time_elapsed", VNum (now w)) ])
         [ ("participant_id", VStr (pid c)) ].

(** Modelled from the spec: the runner drives the steps one at a time; a
    finished step is recorded and handed to the per-step hook. *)
Fixpoint run_steps (c : config) (x : session_input) (index : nat) (steps : list screen)
    (w : world) : world :=
  match steps with
  | [] => w
  | s :: rest =>
      let w1 := advance (elapsed x index) w in
      let data := write c index s (recorded x index) w1 in
      let w2 := World (now w1) (allData w1 ++ [data])%list (trace w1) in
      run_steps c x (S index) rest (on_trial_finish c (stream_settles x index) data w2)
  end.

(** Modelled from the spec: [jsPsych.run]; the post-timeline hook fires once,
    after the last step, and only if the participant got there. *)
Definition run (c : config) (x : session_input) (tl : list screen) : world :=
  let w := run_steps c x 0 (take (completed x) tl) (World 0 [] []) in
  if (length tl <=? completed x)%nat then on_finish c (final_settles x) w else w.

(** The script from top to bottom: the participant id, the timeline, then
    the run.  (The anonymous sign-in before the run settles either way and
    changes nothing here; that a rejected sign-in may make the backend reject
    the writes is covered by the settlements.) *)
Definition session (x : session_input) : completion world :=
  bind_completion (participant_id (search x) (ent x)) (fun id =>
  bind_completion (timeline (random x)) (fun tl =>
  Return (run (Config (redirect_url x) (default "" id)) x tl))).

(* ===================================================================== *)
(** ** Reference notions used in the statements *)
(* ===================================================================== *)

(** What a pattern can consume, without regard to priorities or captures:
    [consumes ic total r s s'] when [r] matches the front of [s] and leaves
    [s']. *)
Inductive consumes (ic : bool) (total : nat) : regex -> string -> string -> Prop :=
| consumes_bol s : String.length s = total -> consumes ic total RBol s s
| consumes_eol : consumes ic total REol "" ""
| consumes_eps s : consumes ic total REps s s
| consumes_char c x s :
    ascii_eqb_i ic c x = true -> consumes ic total (RChar c) (String x s) s
| consumes_class cs x s :
    existsb (fun c => ascii_eqb_i ic c x) cs = true ->
    consumes ic total (RClass cs) (String x s) s
| consumes_digit x s : is_digit x = true -> consumes ic total RDigit (String x s) s
| consumes_seq r1 r2 s s1 s2 :
    consumes ic total r1 s s1 -> consumes ic total r2 s1 s2 ->
    consumes ic total (RSeq r1 r2) s s2
| consumes_alt_l r1 r2 s s' : consumes ic total r1 s s' -> consumes ic total (RAlt r1 r2) s s'
| consumes_alt_r r1 r2 s s' : consumes ic total r2 s s' -> consumes ic total (RAlt r1 r2) s s'
| consumes_opt_some r s s' : consumes ic total r s s' -> consumes ic total (ROpt r) s s'
| consumes_opt_none r s : consumes ic total (ROpt r) s s
| consumes_plus_one r s s' : consumes ic total r s s' -> consumes ic total (RPlus r) s s'
| consumes_plus_more r s s1 s2 :
    consumes ic total r s s1 -> consumes ic total (RPlus r) s1 s2 ->
    consumes ic total (RPlus r) s s2
| consumes_group i r s s' : consumes ic total r s s' -> consumes ic total (RGroup i r) s s'.

Fixpoint upcase (s : string) : string :=
  match s with
  | EmptyString => EmptyString
  | String c s' => String (canonicalize c) (upcase s')
  end.

(** The names the pattern of [parseMeta] accepts, spelled out: in any letter
    case, [<F|M>.F.<digits>_<1|2|3>[.<2|3>].<png|jpg|jpeg>], with any
    non-empty string of digits.  (The fixed grammar of the naming scheme,
    [fixed_grammar_name] below, is narrower.) *)
Definition well_formed_name (name : string) : Prop :=
  exists (t1 t2 h : ascii) (ds suf ext : string),
    name = String t1 (String "." (String t2 ("." ++ ds ++ "_" ++ String h (suf ++ "." ++ ext))))
    /\ (canonicalize t1 = "F"%char \/ canonicalize t1 = "M"%char)
    /\ canonicalize t2 = "F"%char
    /\ ds <> "" /\ all_digits ds = true
    /\ (h = "1"%char \/ h = "2"%char \/ h = "3"%char)
    /\ (suf = "" \/ suf = ".2" \/ suf = ".3")
    /\ (upcase ext = "PNG" \/ upcase ext = "JPG" \/ upcase ext = "JPEG").

Definition no_percent (s : string) : bool :=
  forallb (fun c => negb (Ascii.eqb c "%")) (list_ascii_of_string s).

(** The first of the three parameters with a non-empty value. *)
Definition first_non_empty (search : URLSearchParams) : option string :=
  find (fun v => negb (String.eqb v ""))
       (omap (get search) ["pid"; "workerId"; "PROLIFIC_PID"]).

(** An event of type [type] has reached the [i]-th slider. *)
Definition seen (evs : list (nat * string)) (i : nat) (type : string) : bool :=
  existsb (fun ev => Nat.eqb (fst ev) i && String.eqb (snd ev) type) evs.

(** The [i]-th slider has received at least one qualifying event, that is
    one of a type [on_load] listens to. *)
Definition touched_by (evs : list (nat * string)) (i : nat) : bool :=
  existsb (fun ev => Nat.eqb (fst ev) i && string_in (snd ev) mark_events) evs.

(** What the participant can observe of the gate: the button, the message
    and the touched marks. *)
Definition gate_state (p : page) : option bool * option string * list (option string) :=
  (btn p, msg p, map touched (sliders p)).

(** What holds of the page after any sequence of events: the button and the
    message follow the touched marks; a slider is marked exactly when a
    qualifying event reached it; a listener is still there exactly when no
    event of its type reached the slider. *)
Record gate_inv (evs : list (nat * string)) (p : page) : Prop := GateInv {
  inv_btn : btn p = Some (negb (forallb is_touched (sliders p)));
  inv_msg : msg p = Some (if forallb is_touched (sliders p) then "none" else "block");
  inv_length : length (sliders p) = 4%nat;
  inv_touched : forall i s, sliders p !! i = Some s ->
                touched s = Some (if touched_by evs i then "1" else "0");
  inv_listeners : forall i s t, sliders p !! i = Some s ->
                  string_in t (listeners s) = string_in t mark_events && negb (seen evs i t)
}.

(** The stimulus shown by a step, if it is a rating trial. *)
Definition stimulus_of (s : screen) : option string :=
  match s with
  | SurveyHtmlForm stimulus _ _ => Some stimulus
  | _ => None
  end.

Definition stimuli (steps : list screen) : list string := omap stimulus_of steps.

(** The writes issued to a collection, with the time of the call. *)
Definition pushes_to (collection : string) (tr : list (N * event)) : list (N * value) :=
  omap (fun te => match snd te with
                  | Push c v => if String.eqb c collection then Some (fst te, v) else None
                  | _ => None
                  end) tr.

(** The navigations away from the page, with their time. *)
Definition navigations (tr : list (N * event)) : list (N * string) :=
  omap (fun te => match snd te with Navigate url => Some (fst te, url) | _ => None end) tr.

(** The messages logged at a level. *)
Definition logged (level : string) (tr : list (N * event)) : list string :=
  omap (fun te => match snd te with
                  | Console l m => if String.eqb l level then Some m else None
                  | _ => None
                  end) tr.

(** A rating trial carries the path of its stimulus as the [image] of its
    metadata bag, an object literal (no key twice). *)
Definition well_made (s : screen) : Prop :=
  match s with
  | SurveyHtmlForm stimulus _ data =>
      NoDup (keys data) /\ string_in "image" (keys data) = true
      /\ prop "image" data = VStr stimulus
  | _ => True
  end.

(** The columns of a row of the aggregate record. *)
Definition row_keys : list string :=
  ["block"; "image"; "sex"; "face_id"; "height_label"; "attract_label"; "rt";
   "Q1"; "Q2"; "Q3"; "Q4"].

Definition row_image (row : value) : value := opt_prop row "image".

(** The same session met by a backend that settles the streamed writes
    differently. *)
Definition with_stream_settles (x : session_input) (f : nat -> settlement) : session_input :=
  SessionInput (search x) (ent x) (random x) (redirect_url x) (recorded x) (elapsed x)
               (completed x) f (final_settles x).

(** The records the backend appended to a collection, with their time. *)
Definition stored_in (collection : string) (tr : list (N * event)) : list (N * value) :=
  omap (fun te => match snd te with
                  | Stored c v => if String.eqb c collection then Some (fst te, v) else None
                  | _ => None
                  end) tr.

Definition is_rejected (how : settlement) : bool :=
  match how with Rejected _ => true | _ => false end.

(** The number of rating trials among [steps] (run from [index] on) whose
    streamed write is rejected. *)
Fixpoint failed_saves (settles : nat -> settlement) (index : nat) (steps : list screen) : nat :=
  match steps with
  | [] => 0
  | s :: rest =>
      ((if bool_decide (is_Some (stimulus_of s)) && is_rejected (settles index) then 1 else 0)
       + failed_saves settles (S index) rest)%nat
  end.

(** A session to try the statements on: the participant enters with
    [?pid=ABC123], answers every step in one second and completes the
    timeline; every other streamed write is rejected; the final write is
    acknowledged; a completion URL is configured. *)
Definition sample_session : session_input :=
  SessionInput [("pid", "ABC123")] (Entropy None "0.k2j" "lw3") (fun k => k * 7 + 3)%nat
    "https://example.org/done"
    (fun _ => [("rt", VNum 1234);
               ("response", VObj [("Q1", VStr "4"); ("Q2", VStr "7");
                                  ("Q3", VStr "1"); ("Q4", VStr "2")])])
    (fun _ => 1000%N) 115
    (fun i => if Nat.even i then Acked 30 else Rejected 20) (Acked 50).

Definition sample_world : world :=
  match session sample_session with
  | Return w => w
  | Throw _ => World 0 [] []
  end.

(** The string holds no [c]. *)
Definition free_of (c : ascii) (s : string) : bool :=
  forallb (fun x => negb (Ascii.eqb x c)) (list_ascii_of_string s).

Definition null_meta : meta := Meta None None None None None None.

(** The last segment of a path, as [parseMeta] takes it. *)
Definition basename (imgPath : string) : string := default "" (pop (split "/" imgPath)).

(** The part of [META_RE] that follows the underscore. *)
Definition META_TAIL : regex :=
  rseq [ RGroup 3 (RClass ["1"; "2"; "3"]%char);
         ROpt (rseq [RChar "."; RGroup 4 (RClass ["2"; "3"]%char)]);
         RChar ".";
         RGroup 5 (RAlt (rstr "png") (RAlt (rstr "jpg") (rstr "jpeg")));
         REol ].

(** The metadata bag of the rating trial made for the image of a face. *)
Definition trial_data (sexTag : string) (face : N) (h a : string) : obj :=
  let label := if String.eqb sexTag "F.F" then "Female" else "Male" in
  [ ("block", VStr label);
    ("image", VStr ("all_images/" ++ fileName sexTag face h a));
    ("sex", VStr label);
    ("face_id", VNum face);
    ("height_code", VStr h);
    ("height_label", VStr (if String.eqb h "1" then "Tall"
                           else if String.eqb h "2" then "Average" else "Short"));
    ("attract_code", match a with String _ code => VStr code | "" => VNull end);
    ("attract_label", VStr (if String.eqb a "" then "Attractive"
                            else if String.eqb a ".2" then "LessAttractive"
                            else "VeryUnattractive")) ].


(** The rows of the rating trials recorded so far, in the order recorded. *)
Definition recorded_rows (w : world) : list obj :=
  map trial_columns (filter (fun row => is_survey row = true) (allData w)).

(** The timeline of [sample_session]. *)
Definition sample_timeline : list screen :=
  match timeline (random sample_session) with
  | Return tl => tl
  | Throw _ => []
  end.

(** What a report resolves the sign-in promise with. *)
Definition reported (ev : auth_event) : option string :=
  match ev with AuthStateChanged user => user | SignInFailed => None end.

(** The users successively reported by [onAuthStateChanged]. *)
Definition state_changes (evs : list auth_event) : list (option string) :=
  omap (fun ev => match ev with AuthStateChanged user => Some user | SignInFailed => None end) evs.

Definition sign_in_failed (ev : auth_event) : bool :=
  match ev with SignInFailed => true | AuthStateChanged _ => false end.

(** The fixed grammar of the naming scheme, as the specification words it:
    [<SexTag>.<faceId>_<heightCode><attractivenessSuffix>.<ext>] with the
    sex tag "M.F" or "F.F", the face a positive number of the fixed small
    range (1 to [NUM_FACES_PER_SEX]), the height code "1", "2" or "3", the
    suffix empty, ".2" or ".3", and the extension of the image files. *)
Definition fixed_grammar_name (name : string) : Prop :=
  exists sexTag face h a,
    sexTag ∈ ["M.F"; "F.F"] /\ face ∈ faces_upto NUM_FACES_PER_SEX
    /\ h ∈ HEIGHT_CODES /\ a ∈ ATTR_CODES
    /\ name = fileName sexTag face h a.

(** [Number.MAX_SAFE_INTEGER] = 2^53 - 1: up to it every natural number is
    a double of its own, and [parseInt], [Number] and the rendering of a
    number as a string are exact. *)
Definition MAX_SAFE_INTEGER : N := 9007199254740991.

(** The session of [sample_session], left while the closing thank-you
    screen is shown: the 114 steps before it are completed, among them all
    the rating trials of both blocks. *)
Definition session_before_thank_you : session_input :=
  SessionInput (search sample_session) (ent sample_session) (random sample_session)
    (redirect_url sample_session) (recorded sample_session) (elapsed sample_session)
    114 (stream_settles sample_session) (final_settles sample_session).

Definition world_before_thank_you : world :=
  match session session_before_thank_you with
  | Return w => w
  | Throw _ => World 0 [] []
  end.

(* ===================================================================== *)
(** * Properties *)
(* ===================================================================== *)

(** ** Strings *)

Lemma split_nonempty sep s : split sep s <> [].
Proof.
  destruct s as [|c s]; simpl; [discriminate|].
  destruct (Ascii.eqb c sep); [discriminate|].
  destruct (split sep s); discriminate.
Qed.

Lemma string_app_cons (x : ascii) (a b : string) : String x a ++ b = String x (a ++ b).
Proof. reflexivity. Qed.

Lemma string_app_nil_l (b : string) : "" ++ b = b.
Proof. reflexivity. Qed.

Lemma string_app_assoc (a b c : string) : (a ++ b) ++ c = a ++ (b ++ c).
Proof. induction a as [|x a IH]; [done|]. by rewrite !string_app_cons, IH. Qed.

Lemma string_app_nil_r (a : string) : a ++ "" = a.
Proof. induction a as [|x a IH]; [done|]. by rewrite string_app_cons, IH. Qed.

Lemma string_length_app (a b : string) :
  String.length (a ++ b) = (String.length a + String.length b)%nat.
Proof. induction a as [|x a IH]; [done|]. rewrite string_app_cons. simpl. by rewrite IH. Qed.

Lemma string_app_same_length (pre s : string) :
  (String.length (pre ++ s) <= String.length s)%nat -> pre = "".
Proof.
  rewrite string_length_app. destruct pre; simpl; [done|lia].
Qed.

(** [split] never yields the empty array, so [pop] always finds the name. *)
Lemma pop_split_defined sep s : is_Some (pop (split sep s)).
Proof.
  unfold pop. destruct (last (split sep s)) eqn:E; [eauto|].
  apply last_None in E. by apply split_nonempty in E.
Qed.

Lemma canonicalize_facts c :
  (canonicalize c = "."%char -> c = "."%char) /\
  (canonicalize c = "_"%char -> c = "_"%char) /\
  (is_digit (canonicalize c) = true -> c = canonicalize c).
Proof.
  destruct c as [[] [] [] [] [] [] [] []]; vm_compute; repeat split; congruence.
Qed.

Lemma ascii_eqb_i_true c x : ascii_eqb_i true c x = true <-> canonicalize c = canonicalize x.
Proof. unfold ascii_eqb_i. apply Ascii.eqb_eq. Qed.

(** ** The matcher against what a pattern can consume *)

Section Matcher.
Variables (ic : bool) (total : nat).

Lemma consumes_suffix r s s' :
  consumes ic total r s s' -> exists pre, s = pre ++ s'.
Proof.
  induction 1;
    try (by exists "");
    try (by eexists (String _ ""));
    try assumption.
  - destruct IHconsumes1 as [p1 ->], IHconsumes2 as [p2 ->].
    exists (p1 ++ p2). by rewrite string_app_assoc.
  - destruct IHconsumes1 as [p1 ->], IHconsumes2 as [p2 ->].
    exists (p1 ++ p2). by rewrite string_app_assoc.
Qed.

Lemma rmatch_ext r : forall s m k1 k2,
  (forall s' m', k1 s' m' = k2 s' m') ->
  rmatch ic total r s m k1 = rmatch ic total r s m k2.
Proof.
  induction r; intros s m k1 k2 Hk; cbn [rmatch];
    try (by rewrite ?Hk);
    try (destruct s; by rewrite ?Hk).
  - apply IHr1. intros. by apply IHr2.
  - by rewrite (IHr1 _ _ k1 k2 Hk), (IHr2 _ _ k1 k2 Hk).
  - by rewrite (IHr _ _ k1 k2 Hk), Hk.
  - generalize (S (String.length s)). intros fuel. revert s m.
    induction fuel as [|fuel IH]; intros s m; [reflexivity|].
    simpl. apply IHr. intros s' m'. by rewrite IH, Hk.
  - apply IHr. intros. by rewrite Hk.
Qed.

Lemma iterate_fuel r k : forall f1 f2 s m,
  (String.length s < f1)%nat -> (String.length s < f2)%nat ->
  iterate (rmatch ic total r) k f1 s m = iterate (rmatch ic total r) k f2 s m.
Proof.
  induction f1 as [|f1 IH]; intros [|f2] s m H1 H2; try lia.
  simpl. apply rmatch_ext. intros s' m'.
  destruct (Nat.ltb_spec (String.length s') (String.length s)); [|done].
  by rewrite (IH f2) by lia.
Qed.

Lemma iterate_sound r k res
    (IH : forall s m k', rmatch ic total r s m k' = Some res ->
          exists s' m', consumes ic total r s s' /\ k' s' m' = Some res) :
  forall fuel s m, iterate (rmatch ic total r) k fuel s m = Some res ->
  exists s' m', consumes ic total (RPlus r) s s' /\ k s' m' = Some res.
Proof.
  induction fuel as [|fuel IHf]; intros s m H; [done|].
  simpl in H. apply IH in H as (s1 & m1 & Hc & H).
  destruct (if (String.length s1 <? String.length s)%nat
            then iterate (rmatch ic total r) k fuel s1 m1 else None) as [res'|] eqn:E;
    simpl in H.
  - destruct (String.length s1 <? String.length s)%nat; [|done].
    injection H as ->. apply IHf in E as (s2 & m2 & Hc2 & Hk).
    exists s2, m2. eauto using consumes_plus_more.
  - exists s1, m1. eauto using consumes_plus_one.
Qed.

Lemma rmatch_sound r : forall s m k res,
  rmatch ic total r s m k = Some res ->
  exists s' m', consumes ic total r s s' /\ k s' m' = Some res.
Proof.
  induction r; intros s m k res H; cbn [rmatch] in H.
  - destruct (Nat.eqb_spec (String.length s) total); [|done].
    eauto using consumes_bol.
  - destruct s; [|done]. eauto using consumes_eol.
  - eauto using consumes_eps.
  - destruct s as [|x s]; [done|].
    destruct (ascii_eqb_i ic c x) eqn:E; [|done]. eauto using consumes_char.
  - destruct s as [|x s]; [done|].
    destruct (existsb _ cs) eqn:E; [|done]. eauto using consumes_class.
  - destruct s as [|x s]; [done|].
    destruct (is_digit x) eqn:E; [|done]. eauto using consumes_digit.
  - apply IHr1 in H as (s1 & m1 & H1 & H). apply IHr2 in H as (s2 & m2 & H2 & H).
    eauto using consumes_seq.
  - destruct (rmatch ic total r1 s m k) eqn:E; simpl in H.
    + injection H as ->. apply IHr1 in E as (s1 & m1 & H1 & H).
      eauto using consumes_alt_l.
    + apply IHr2 in H as (s1 & m1 & H1 & H). eauto using consumes_alt_r.
  - destruct (rmatch ic total r s m k) eqn:E; simpl in H.
    + injection H as ->. apply IHr in E as (s1 & m1 & H1 & H).
      eauto using consumes_opt_some.
    + eauto using consumes_opt_none.
  - eapply iterate_sound; eauto.
  - apply IHr in H as (s1 & m1 & H1 & H). eauto using consumes_group.
Qed.

Lemma is_Some_orelse {A} (x y : option A) : is_Some x \/ is_Some y -> is_Some (orelse x y).
Proof. destruct x; simpl; [eauto|]. intros [[? ?]|?]; [done|auto]. Qed.

Lemma rmatch_complete r s s' :
  consumes ic total r s s' ->
  forall k, (forall m, is_Some (k s' m)) -> forall m, is_Some (rmatch ic total r s m k).
Proof.
  induction 1; intros k Hk m; cbn [rmatch].
  - rewrite H, Nat.eqb_refl. auto.
  - auto.
  - auto.
  - rewrite H. auto.
  - rewrite H. auto.
  - rewrite H. auto.
  - apply IHconsumes1. intros m1. by apply IHconsumes2.
  - apply is_Some_orelse. left. by apply IHconsumes.
  - apply is_Some_orelse. right. by apply IHconsumes.
  - apply is_Some_orelse. left. by apply IHconsumes.
  - apply is_Some_orelse. auto.
  - simpl. apply IHconsumes. intros m1. apply is_Some_orelse. auto.
  - destruct (Nat.ltb_spec (String.length s1) (String.length s)) as [Hlt|Hge].
    + simpl. apply IHconsumes1. intros m1. apply is_Some_orelse. left.
      apply Nat.ltb_lt in Hlt as Hlt'. rewrite Hlt'.
      specialize (IHconsumes2 k Hk m1). cbn [rmatch] in IHconsumes2.
      by rewrite (iterate_fuel r k _ (S (String.length s1))) by lia.
    + destruct (consumes_suffix _ _ _ H) as [pre ->].
      apply string_app_same_length in Hge as ->.
      by apply (IHconsumes2 k Hk m).
  - apply IHconsumes. intros m1. apply Hk.
Qed.
End Matcher.

Lemma suffixes_spec str s : s ∈ suffixes str <-> exists pre, str = pre ++ s.
Proof.
  induction str as [|c str IH]; simpl.
  - rewrite list_elem_of_singleton. split; [intros ->; by exists ""|].
    intros [[|? ?] ?]; [done|discriminate].
  - rewrite elem_of_cons, IH. split.
    + intros [->|[pre ->]]; [by exists ""|by exists (String c pre)].
    + intros [[|c' pre] E]; [left; by rewrite E|right].
      rewrite string_app_cons in E. injection E as -> ->. by exists pre.
Qed.

Lemma str_match_sound ic re str m :
  str_match ic re str = Some m ->
  exists s s', s ∈ suffixes str /\ consumes ic (String.length str) re s s'.
Proof.
  unfold str_match. generalize (String.length str) as total. intros total.
  induction (suffixes str) as [|s l IH]; simpl; [done|].
  destruct (rmatch ic total re s [] _) eqn:E; simpl.
  - intros _. apply rmatch_sound in E as (s' & _ & Hc & _).
    exists s, s'. split; [left|done].
  - intros H. destruct (IH H) as (s0 & s' & ? & ?). exists s0, s'. split; [by right|done].
Qed.

Lemma str_match_complete ic re str s' :
  consumes ic (String.length str) re str s' -> is_Some (str_match ic re str).
Proof.
  intros Hc. unfold str_match. destruct str; simpl; apply is_Some_orelse; left;
    (eapply rmatch_complete; [exact Hc|eauto]).
Qed.

(** ** The pattern of [parseMeta] against the filename grammar *)

Lemma eqb_i_inv c x : ascii_eqb_i true c x = true -> canonicalize x = canonicalize c.
Proof. intros H. symmetry. by apply ascii_eqb_i_true. Qed.

Lemma eqb_i_dot x : ascii_eqb_i true "." x = true -> x = "."%char.
Proof. intros H%eqb_i_inv. by apply canonicalize_facts. Qed.

Lemma eqb_i_underscore x : ascii_eqb_i true "_" x = true -> x = "_"%char.
Proof. intros H%eqb_i_inv. by apply canonicalize_facts. Qed.

Lemma eqb_i_digit c x : is_digit c = true -> ascii_eqb_i true c x = true -> x = c.
Proof.
  intros Hd H%eqb_i_inv.
  assert (canonicalize c = c) as Hc.
  { unfold canonicalize. destruct (is_lower c) eqn:E; [|done].
    unfold is_digit, is_lower in *. apply andb_true_iff in Hd as [_ ?%Nat.leb_le].
    apply andb_true_iff in E as [?%Nat.leb_le _]. lia. }
  rewrite Hc in H. destruct (canonicalize_facts x) as (_ & _ & Hx).
  rewrite H in Hx. rewrite (Hx Hd). done.
Qed.

Lemma consumes_digits ic total s s' :
  consumes ic total (RPlus RDigit) s s' ->
  exists ds, s = ds ++ s' /\ ds <> "" /\ all_digits ds = true.
Proof.
  remember (RPlus RDigit) as r eqn:Er. induction 1; try discriminate; injection Er as ->.
  - inv H. exists (String x ""). repeat split; [done|].
    unfold all_digits. simpl. rewrite andb_true_iff. auto.
  - inv H. destruct (IHconsumes2 eq_refl) as (ds & -> & _ & Hd).
    exists (String x ds). repeat split; [done|].
    unfold all_digits in *. simpl. rewrite andb_true_iff. auto.
Qed.

Lemma digits_consumes ic total ds rest :
  ds <> "" -> all_digits ds = true -> consumes ic total (RPlus RDigit) (ds ++ rest) rest.
Proof.
  unfold all_digits. induction ds as [|x ds IH]; [done|]. intros _. simpl.
  intros [Hx Hd]%andb_true_iff. rewrite string_app_cons.
  destruct ds as [|y ds].
  - apply consumes_plus_one. by constructor.
  - eapply consumes_plus_more; [by constructor|]. by apply IH.
Qed.

Lemma META_RE_sound total s s' :
  consumes true total META_RE s s' ->
  s' = "" /\ String.length s = total /\ well_formed_name s.
Proof.
  intros H. cbv [META_RE rseq rstr] in H.
  repeat match goal with
  | H : consumes _ _ (RSeq _ _) _ _ |- _ => inv H
  | H : consumes _ _ (RGroup _ _) _ _ |- _ => inv H
  | H : consumes _ _ (ROpt _) _ _ |- _ => inv H
  | H : consumes _ _ (RAlt _ _) _ _ |- _ => inv H
  | H : consumes _ _ RBol _ _ |- _ => inv H
  | H : consumes _ _ REol _ _ |- _ => inv H
  | H : consumes _ _ (RChar _) _ _ |- _ => inv H
  | H : consumes _ _ (RClass _) _ _ |- _ => inv H
  | H : consumes _ _ (RPlus RDigit) _ _ |- _ => apply consumes_digits in H as (? & ? & ? & ?)
  end;
  repeat match goal with
  | H : ascii_eqb_i true "." _ = true |- _ => apply eqb_i_dot in H as ->
  | H : ascii_eqb_i true "_" _ = true |- _ => apply eqb_i_underscore in H as ->
  | H : ascii_eqb_i true ?c _ = true |- _ => apply (eqb_i_digit c _ eq_refl) in H as ->
  | H : ascii_eqb_i true ?c _ = true |- _ =>
      apply eqb_i_inv in H;
      let v := eval vm_compute in (canonicalize c) in change (canonicalize c) with v in H
  | H : existsb _ _ = true |- _ => cbn [existsb] in H
  | H : (_ || _) = true |- _ => apply orb_true_iff in H as [H|H]
  | H : false = true |- _ => discriminate H
  end; subst.
  all: split; [done|]; split; [done|].
  all: first
    [ eexists _, _, _, _, (String "." (String _ "")), _; split; [reflexivity|]
    | eexists _, _, _, _, "", _; split; [reflexivity|] ].
  all: cbn [upcase].
  all: repeat match goal with H : canonicalize _ = _ |- _ => rewrite H; clear H end.
  all: tauto.
Qed.

Lemma consumes_char_i total c x s :
  canonicalize c = canonicalize x -> consumes true total (RChar c) (String x s) s.
Proof. intros H. constructor. by apply ascii_eqb_i_true. Qed.

Lemma consumes_class_i total cs c x s :
  c ∈ cs -> canonicalize c = canonicalize x -> consumes true total (RClass cs) (String x s) s.
Proof.
  intros Hin H. constructor. apply existsb_exists. exists c.
  split; [by apply list_elem_of_In|by apply ascii_eqb_i_true].
Qed.

Lemma upcase_inv3 ext (a b c : ascii) :
  upcase ext = String a (String b (String c "")) ->
  exists x y z, ext = String x (String y (String z ""))
    /\ canonicalize x = a /\ canonicalize y = b /\ canonicalize z = c.
Proof.
  destruct ext as [|x [|y [|z [|? ?]]]]; simpl; intros H; try discriminate.
  injection H as <- <- <-. by exists x, y, z.
Qed.

Lemma upcase_inv4 ext (a b c d : ascii) :
  upcase ext = String a (String b (String c (String d ""))) ->
  exists x y z w, ext = String x (String y (String z (String w "")))
    /\ canonicalize x = a /\ canonicalize y = b /\ canonicalize z = c /\ canonicalize w = d.
Proof.
  destruct ext as [|x [|y [|z [|w [|? ?]]]]]; simpl; intros H; try discriminate.
  injection H as <- <- <- <-. by exists x, y, z, w.
Qed.

Lemma META_RE_complete s :
  well_formed_name s -> consumes true (String.length s) META_RE s "".
Proof.
  intros (t1 & t2 & h & ds & suf & ext & -> & Ht1 & Ht2 & Hne & Hds & Hh & Hsuf & Hext).
  cbv [META_RE rseq rstr].
  eapply consumes_seq; [by apply consumes_bol|].
  eapply consumes_seq.
  { apply consumes_group. eapply consumes_seq; [|eapply consumes_seq].
    - destruct Ht1 as [E|E].
      + apply (consumes_class_i _ _ "F"); [repeat constructor|by rewrite E].
      + apply (consumes_class_i _ _ "M"); [repeat constructor|by rewrite E].
    - by apply consumes_char_i.
    - apply consumes_char_i. by rewrite Ht2. }
  rewrite !string_app_cons, string_app_nil_l.
  eapply consumes_seq; [by apply consumes_char_i|].
  eapply consumes_seq; [apply consumes_group; by apply digits_consumes|].
  eapply consumes_seq; [by apply consumes_char_i|].
  eapply consumes_seq.
  { apply consumes_group.
    destruct Hh as [->|[->| ->]];
      [apply (consumes_class_i _ _ "1")|apply (consumes_class_i _ _ "2")
      |apply (consumes_class_i _ _ "3")]; first [done | repeat constructor]. }
  eapply (consumes_seq _ _ _ _ _ ("." ++ ext)).
  { destruct Hsuf as [->|[->| ->]].
    - apply consumes_opt_none.
    - apply consumes_opt_some. eapply consumes_seq; [by apply consumes_char_i|].
      apply consumes_group. apply (consumes_class_i _ _ "2"); first [done | repeat constructor].
    - apply consumes_opt_some. eapply consumes_seq; [by apply consumes_char_i|].
      apply consumes_group. apply (consumes_class_i _ _ "3"); first [done | repeat constructor]. }
  rewrite string_app_cons, string_app_nil_l.
  eapply consumes_seq; [by apply consumes_char_i|].
  eapply consumes_seq; [|apply consumes_eol].
  apply consumes_group.
  destruct Hext as [H|[H|H]].
  - apply upcase_inv3 in H as (x & y & z & -> & Hx & Hy & Hz).
    apply consumes_alt_l.
    eapply consumes_seq; [|eapply consumes_seq]; apply consumes_char_i; by rewrite ?Hx, ?Hy, ?Hz.
  - apply upcase_inv3 in H as (x & y & z & -> & Hx & Hy & Hz).
    apply consumes_alt_r, consumes_alt_l.
    eapply consumes_seq; [|eapply consumes_seq]; apply consumes_char_i; by rewrite ?Hx, ?Hy, ?Hz.
  - apply upcase_inv4 in H as (x & y & z & w & -> & Hx & Hy & Hz & Hw).
    apply consumes_alt_r, consumes_alt_r.
    eapply consumes_seq; [|eapply consumes_seq; [|eapply consumes_seq]];
      apply consumes_char_i; by rewrite ?Hx, ?Hy, ?Hz, ?Hw.
Qed.

(** The pattern accepts exactly the names of the grammar. *)
Lemma str_match_META_RE name :
  is_Some (str_match true META_RE name) <-> well_formed_name name.
Proof.
  split.
  - intros [m Hm]. apply str_match_sound in Hm as (s & s' & Hs & Hc).
    apply META_RE_sound in Hc as (_ & Hlen & Hwf).
    apply suffixes_spec in Hs as [pre ->].
    assert (pre = "") as ->; [|done].
    apply (string_app_same_length pre s). lia.
  - intros H. eapply str_match_complete. by apply META_RE_complete.
Qed.

(** ** The filename codec *)

Example parseMeta_scenario :
  parseMeta "M.F.3_2.2.png"
  = Meta (Some "Male") (Some 3%N) (Some "2") (Some "Average") (Some "2") (Some "LessAttractive").
Proof. vm_compute. reflexivity. Qed.

Lemma parseMeta_null_iff imgPath :
  parseMeta imgPath = null_meta <-> str_match true META_RE (basename imgPath) = None.
Proof.
  unfold parseMeta. fold (basename imgPath).
  destruct (str_match true META_RE (basename imgPath)); [|done].
  split; discriminate.
Qed.

(** The generator yields N x 3 x 3 = 54 names per sex tag, all different. *)
Lemma buildFiles_distinct :
  length (buildFiles "M.F") = 54%nat /\ NoDup (buildFiles "M.F") /\
  length (buildFiles "F.F") = 54%nat /\ NoDup (buildFiles "F.F").
Proof.
  repeat split; try reflexivity; apply (bool_decide_unpack _); vm_compute; exact I.
Qed.

Lemma buildFiles_elem sexTag file :
  file ∈ buildFiles sexTag <->
  exists face h a, face ∈ faces_upto NUM_FACES_PER_SEX /\ h ∈ HEIGHT_CODES /\ a ∈ ATTR_CODES
                   /\ file = fileName sexTag face h a.
Proof.
  unfold buildFiles. rewrite list_elem_of_bind. split.
  - intros (face & (h & (a & ->%list_elem_of_singleton & Ha)%list_elem_of_bind & Hh)%list_elem_of_bind & Hf).
    by exists face, h, a.
  - intros (face & h & a & Hf & Hh & Ha & ->). exists face. split; [|done].
    apply list_elem_of_bind. exists h. split; [|done].
    apply list_elem_of_bind. exists a. split; [|done]. by apply list_elem_of_singleton.
Qed.

(** C2. Every name the generator produces for "M.F" or "F.F", alone or under
    the image directory, is parsed successfully, and the parsed fields are
    those the name was built from: the sex of the tag, the face number, the
    height code, and the attractiveness code (the suffix without its dot,
    null for the empty suffix); the labels are never null. *)
Theorem C2_generated_paths_round_trip (sexTag dir file : string) :
  sexTag ∈ ["M.F"; "F.F"] ->
  dir ∈ [""; "all_images/"] ->
  file ∈ buildFiles sexTag ->
  exists face h a,
    face ∈ faces_upto NUM_FACES_PER_SEX /\ h ∈ HEIGHT_CODES /\ a ∈ ATTR_CODES
    /\ file = fileName sexTag face h a
    /\ sex (parseMeta (dir ++ file)) = Some (if String.eqb sexTag "F.F" then "Female" else "Male")
    /\ face_id (parseMeta (dir ++ file)) = Some face
    /\ height_code (parseMeta (dir ++ file)) = Some h
    /\ a = match attract_code (parseMeta (dir ++ file)) with
           | Some code => "." ++ code
           | None => ""
           end
    /\ is_Some (height_label (parseMeta (dir ++ file)))
    /\ is_Some (attract_label (parseMeta (dir ++ file))).
Proof.
  intros Htag Hdir (face & h & a & Hf & Hh & Ha & ->)%buildFiles_elem.
  exists face, h, a. split; [done|]. split; [done|]. split; [done|]. split; [done|].
  change (faces_upto NUM_FACES_PER_SEX) with [1%N; 2%N; 3%N; 4%N; 5%N; 6%N] in Hf.
  unfold HEIGHT_CODES in Hh. unfold ATTR_CODES in Ha.
  repeat match goal with
  | H : _ ∈ [] |- _ => by apply elem_of_nil in H
  | H : _ ∈ _ :: _ |- _ => apply elem_of_cons in H as [->|H]
  end;
  vm_compute; repeat split; eauto.
Qed.

Lemma C2_generated_paths_round_trip_witness :
  exists face h a,
    face ∈ faces_upto NUM_FACES_PER_SEX /\ h ∈ HEIGHT_CODES /\ a ∈ ATTR_CODES
    /\ "F.F.4_3.2.png" = fileName "F.F" face h a
    /\ sex (parseMeta ("all_images/" ++ "F.F.4_3.2.png")) = Some "Female"
    /\ face_id (parseMeta ("all_images/" ++ "F.F.4_3.2.png")) = Some face
    /\ height_code (parseMeta ("all_images/" ++ "F.F.4_3.2.png")) = Some h
    /\ a = match attract_code (parseMeta ("all_images/" ++ "F.F.4_3.2.png")) with
           | Some code => "." ++ code
           | None => ""
           end
    /\ is_Some (height_label (parseMeta ("all_images/" ++ "F.F.4_3.2.png")))
    /\ is_Some (attract_label (parseMeta ("all_images/" ++ "F.F.4_3.2.png"))).
Proof.
  apply (C2_generated_paths_round_trip "F.F" "all_images/" "F.F.4_3.2.png");
    apply (bool_decide_unpack _); vm_compute; exact I.
Defined.

(** C3, as amended. A path whose last segment is not a name the pattern
    accepts ([well_formed_name]: any letter case, any non-empty string of
    digits for the face, png, jpg or jpeg) yields the record with all six
    fields null; [parseMeta] is a total function, it has no failing
    outcome.  The names of the fixed grammar are among those the pattern
    accepts ([fixed_grammar_name_well_formed] below), and every name the
    pattern accepts is parsed ([well_formed_name_is_parsed]), so no wider
    set of paths has null metadata. *)
Theorem C3_malformed_name_gives_null_metadata (imgPath : string) :
  ~ well_formed_name (basename imgPath) ->
  parseMeta imgPath = Meta None None None None None None.
Proof.
  intros Hbad. apply parseMeta_null_iff.
  destruct (str_match true META_RE (basename imgPath)) eqn:E; [|done].
  destruct Hbad. apply str_match_META_RE. by rewrite E.
Qed.

Lemma not_well_formed_by_match name :
  str_match true META_RE name = None -> ~ well_formed_name name.
Proof. intros E [m Hm]%str_match_META_RE. by rewrite E in Hm. Qed.

Lemma C3_malformed_name_gives_null_metadata_witness :
  parseMeta "all_images/M.F.3_4.png" = Meta None None None None None None
  /\ parseMeta "all_images/M.F.3_2" = Meta None None None None None None.
Proof.
  split; apply C3_malformed_name_gives_null_metadata;
    apply not_well_formed_by_match; vm_compute; reflexivity.
Defined.

(** The names of the fixed grammar are the names the generator yields for
    the two tags. *)
Lemma fixed_grammar_name_generated name :
  fixed_grammar_name name <-> name ∈ (maleFiles ++ femaleFiles)%list.
Proof.
  unfold fixed_grammar_name, maleFiles, femaleFiles. rewrite elem_of_app, !buildFiles_elem.
  split.
  - intros (sexTag & face & h & a & Htag & Hf & Hh & Ha & ->).
    apply elem_of_cons in Htag as [->|Htag]; [left; by exists face, h, a|].
    apply list_elem_of_singleton in Htag as ->. right. by exists face, h, a.
  - intros [(face & h & a & Hf & Hh & Ha & ->)|(face & h & a & Hf & Hh & Ha & ->)].
    + exists "M.F", face, h, a. repeat split; try done. repeat constructor.
    + exists "F.F", face, h, a. repeat split; try done. repeat constructor.
Qed.

(** The pattern accepts every name of the fixed grammar. *)
Lemma fixed_grammar_name_well_formed name : fixed_grammar_name name -> well_formed_name name.
Proof.
  intros Hn. apply str_match_META_RE. revert name Hn.
  assert (Forall (fun name => is_Some (str_match true META_RE name))
                 (maleFiles ++ femaleFiles)) as H.
  { apply (bool_decide_unpack _). vm_compute. exact I. }
  intros name Hn%fixed_grammar_name_generated. by apply (proj1 (Forall_forall _ _) H).
Qed.

(** C3, as the claim words it, fails.  The name "M.F.0_1.png" is not of the
    fixed grammar (its face is not positive), yet the pattern accepts it
    and [parseMeta] reports face 0 with non-null fields; so it is not true
    that every path outside the fixed grammar has all-null metadata.  (The
    same happens for a face above the range, as in "M.F.7_1.png", for the
    extensions jpg and jpeg, and for a tag in lower case.) *)
Lemma C3_name_outside_the_fixed_grammar_is_parsed :
  ~ fixed_grammar_name (basename "M.F.0_1.png")
  /\ parseMeta "M.F.0_1.png"
     = Meta (Some "Male") (Some 0%N) (Some "1") (Some "Tall") None (Some "Attractive")
  /\ ~ (forall imgPath, ~ fixed_grammar_name (basename imgPath) ->
          parseMeta imgPath = Meta None None None None None None).
Proof.
  assert (~ fixed_grammar_name (basename "M.F.0_1.png")) as Hout.
  { rewrite fixed_grammar_name_generated. apply (bool_decide_unpack _). vm_compute. exact I. }
  split; [exact Hout|]. split; [vm_compute; reflexivity|].
  intros H. specialize (H "M.F.0_1.png" Hout). vm_compute in H. discriminate H.
Qed.

Example names_outside_the_fixed_grammar :
  parseMeta "M.F.7_1.jpg"
    = Meta (Some "Male") (Some 7%N) (Some "1") (Some "Tall") None (Some "Attractive")
  /\ ~ fixed_grammar_name "M.F.7_1.jpg" /\ ~ fixed_grammar_name "f.f.1_1.png".
Proof.
  split; [vm_compute; reflexivity|].
  split; rewrite fixed_grammar_name_generated; apply (bool_decide_unpack _); vm_compute; exact I.
Qed.

(** The converse: a name the pattern accepts is always parsed. *)
Lemma well_formed_name_is_parsed imgPath :
  well_formed_name (basename imgPath) -> is_Some (sex (parseMeta imgPath)).
Proof.
  intros [m Hm]%str_match_META_RE. unfold parseMeta. fold (basename imgPath).
  rewrite Hm. simpl. eauto.
Qed.

(** C10. The pattern ignores letter case but the tag is compared with "F.F"
    as written: the lower-case name "f.f.1_1.png" is parsed (only because of
    the [i] flag), and its sex is reported as "Male"; the same name in upper
    case is "Female". *)
Theorem C10_lowercase_tag_parsed_as_male :
  parseMeta "f.f.1_1.png"
    = Meta (Some "Male") (Some 1%N) (Some "1") (Some "Tall") None (Some "Attractive")
  /\ parseMeta "F.F.1_1.png"
    = Meta (Some "Female") (Some 1%N) (Some "1") (Some "Tall") None (Some "Attractive")
  /\ is_Some (str_match true META_RE "f.f.1_1.png")
  /\ str_match false META_RE "f.f.1_1.png" = None
  /\ group 1 (default [] (str_match true META_RE "f.f.1_1.png")) = Some "f.f".
Proof. vm_compute. repeat split; eauto. Qed.

(** ** Identity resolution *)

Lemma escaped_octet_length s b rest :
  escaped_octet s = Some (b, rest) -> String.length s = (3 + String.length rest)%nat.
Proof.
  unfold escaped_octet. destruct s as [|c s]; [done|].
  destruct c as [[] [] [] [] [] [] [] []]; try done.
  destruct s as [|x [|y s]]; try done.
  destruct (hex_value x), (hex_value y); try done. by intros [= <- <-].
Qed.

Lemma escaped_octets_length n : forall s bs rest,
  escaped_octets n s = Some (bs, rest) -> (String.length rest <= String.length s)%nat.
Proof.
  induction n as [|n IH]; intros s bs rest; simpl.
  - by intros [= <- <-].
  - destruct (escaped_octet s) as [[b r]|] eqn:E; [|done].
    destruct (escaped_octets n r) as [[bs' r']|] eqn:E'; [|done].
    intros [= <- <-]. apply escaped_octet_length in E. apply IH in E'. lia.
Qed.

(** The fuel of [decodeURIComponent] is never used up: any amount from the
    length of the string on gives the same outcome. *)
Lemma decode_loop_fuel : forall f1 f2 s,
  (String.length s <= f1)%nat -> (String.length s <= f2)%nat ->
  decode_loop f1 s = decode_loop f2 s.
Proof.
  induction f1 as [|f1 IH]; intros [|f2] [|c s] H1 H2; simpl in H1, H2; try lia; try done.
  cbn [decode_loop]. destruct (negb (Ascii.eqb c "%")).
  { by rewrite (IH f2 s) by lia. }
  destruct (escaped_octet (String c s)) as [[b0 rest]|] eqn:E; [|done].
  apply escaped_octet_length in E. simpl in E.
  destruct (b0 <? 128)%nat; [by rewrite (IH f2 rest) by lia|].
  destruct (continuation_count b0) as [n|]; [|done].
  destruct (escaped_octets n rest) as [[bs rest']|] eqn:E'; [|done].
  apply escaped_octets_length in E'.
  destruct (valid_utf8 (b0 :: bs)); [|done]. by rewrite (IH f2 rest') by lia.
Qed.

Lemma decode_loop_plain s : forall fuel,
  (String.length s <= fuel)%nat -> no_percent s = true -> decode_loop fuel s = Return s.
Proof.
  unfold no_percent. induction s as [|c s IH]; intros [|fuel] Hlen Hs; simpl in *; try done; try lia.
  apply andb_true_iff in Hs as [Hc Hs].
  rewrite Hc, IH by (done || lia). done.
Qed.

Lemma getParam_plain search name :
  (forall v, get search name = Some v -> no_percent v = true) ->
  getParam search name
  = Return (match get search name with Some (String c v) => Some (String c v) | _ => None end).
Proof.
  intros Hplain. unfold getParam, decodeURIComponent.
  destruct (get search name) as [[|c v]|]; [done| |done].
  cbn [truthy from_option].
  rewrite decode_loop_plain; [done|done|by apply Hplain].
Qed.

(** Where no value holds a ['%'], the participant id is the first non-empty
    value among [pid], [workerId], [PROLIFIC_PID], and the generated
    identifier when there is none. *)
Lemma participant_id_plain search e :
  (forall name v, get search name = Some v -> no_percent v = true) ->
  participant_id search e = Return (Some (default (safeUUID e) (first_non_empty search))).
Proof.
  intros Hplain. unfold participant_id, first_non_empty.
  rewrite !getParam_plain by apply Hplain. simpl.
  destruct (get search "pid") as [[|c1 v1]|]; simpl; try done;
  destruct (get search "workerId") as [[|c2 v2]|]; simpl; try done;
  destruct (get search "PROLIFIC_PID") as [[|c3 v3]|]; simpl; done.
Qed.

Example participant_id_priority e :
  participant_id [("PROLIFIC_PID", "p3"); ("workerId", "w2"); ("pid", "")] e = Return (Some "w2")
  /\ participant_id [("other", "x")] (Entropy None "0.k2j" "lw3") = Return (Some "pid_k2jlw3")
  /\ participant_id [] (Entropy (Some (Return "0b6e-uuid")) "0.k2j" "lw3") = Return (Some "0b6e-uuid").
Proof. repeat split; reflexivity. Qed.

(** C8. Entering with [?pid=ABC123] yields exactly "ABC123"; but the value
    the browser hands over is decoded a second time, so a value with a ['%']
    is not taken as it is: [?pid=50%25], whose value is "50%", makes the
    resolution throw, and [?pid=a%2541], whose value is "a%41", yields
    "aA". *)
Theorem C8_participant_id_decoded_twice (e : entropy) :
  participant_id [("pid", "ABC123")] e = Return (Some "ABC123")
  /\ get [("pid", "50%")] "pid" = Some "50%"
  /\ participant_id [("pid", "50%")] e = Throw "URIError"
  /\ session (SessionInput [("pid", "50%")] e (fun _ => 0%nat) "" (fun _ => []) (fun _ => 0%N)
                           0 (fun _ => Pending) Pending) = Throw "URIError"
  /\ get [("pid", "a%41")] "pid" = Some "a%41"
  /\ participant_id [("pid", "a%41")] e = Return (Some "aA").
Proof. repeat split; reflexivity. Qed.

(** ** The slider gate *)

#[local] Arguments string_in : simpl never.

Lemma string_in_spec x l : string_in x l = true <-> x ∈ l.
Proof.
  unfold string_in. rewrite existsb_exists. split.
  - intros (y & Hy%list_elem_of_In & ->%String.eqb_eq). done.
  - intros H. exists x. split; [by apply list_elem_of_In|apply String.eqb_refl].
Qed.

Lemma string_in_remove x y l :
  string_in y (remove_string x l) = string_in y l && negb (String.eqb x y).
Proof.
  apply eq_true_iff_eq. rewrite andb_true_iff, negb_true_iff, !string_in_spec.
  unfold remove_string. rewrite list_elem_of_filter. tauto.
Qed.

Lemma gate_inv_on_load : gate_inv [] (on_load trial_page).
Proof.
  split; try reflexivity.
  - intros [|[|[|[|i]]]] s; simpl; intros H; by inv H.
  - intros [|[|[|[|i]]]] s t; simpl; intros H; inv H; simpl; by rewrite andb_true_r.
Qed.

Lemma touched_by_snoc evs i j t :
  touched_by (evs ++ [(j, t)]) i = touched_by evs i || (Nat.eqb j i && string_in t mark_events).
Proof. unfold touched_by. rewrite existsb_app. simpl. by rewrite orb_false_r. Qed.

Lemma seen_snoc evs i j t t' :
  seen (evs ++ [(j, t)]) i t' = seen evs i t' || (Nat.eqb j i && String.eqb t t').
Proof. unfold seen. rewrite existsb_app. simpl. by rewrite orb_false_r. Qed.

Lemma seen_touched evs i t :
  seen evs i t = true -> string_in t mark_events = true -> touched_by evs i = true.
Proof.
  unfold seen, touched_by. rewrite !existsb_exists.
  intros ([j t'] & Hin & [Hj Heq]%andb_true_iff) Ht. simpl in *.
  apply String.eqb_eq in Heq as ->.
  exists (j, t). split; [done|]. simpl. by rewrite Hj, Ht.
Qed.

Lemma gate_inv_dispatch evs p i t :
  gate_inv evs p -> gate_inv (evs ++ [(i, t)]) (dispatch p (i, t)).
Proof.
  intros [Hb Hm Hlen Ht Hl]. unfold dispatch.
  destruct (sliders p !! i) as [s|] eqn:Hs.
  - destruct (string_in t (listeners s)) eqn:Hin.
    + (* a listener runs [mark] *)
      rewrite (Hl i s t Hs) in Hin. apply andb_true_iff in Hin as [Hq Hnew]. 
      split; simpl; try done.
      * by rewrite length_insert.
      * intros j s' Hj. rewrite touched_by_snoc.
        destruct (decide (i = j)) as [<-|Hne].
        -- rewrite list_lookup_insert_eq in Hj by eauto using lookup_lt_Some.
           inv Hj. simpl. by rewrite Nat.eqb_refl, Hq, orb_true_r.
        -- rewrite list_lookup_insert_ne in Hj by done.
           apply Nat.eqb_neq in Hne. rewrite Hne, orb_false_r. eauto.
      * intros j s' t' Hj. rewrite seen_snoc.
        destruct (decide (i = j)) as [<-|Hne].
        -- rewrite list_lookup_insert_eq in Hj by eauto using lookup_lt_Some.
           inv Hj. simpl. rewrite string_in_remove, (Hl i s t' Hs), Nat.eqb_refl. simpl.
           by rewrite negb_orb, andb_assoc.
        -- rewrite list_lookup_insert_ne in Hj by done.
           apply Nat.eqb_neq in Hne. rewrite Hne, orb_false_r. eauto.
    + (* no listener for this type any more, or never *)
      rewrite (Hl i s t Hs) in Hin.
      split; try done.
      * intros j s' Hj. rewrite touched_by_snoc, (Ht j s' Hj).
        destruct (Nat.eqb_spec i j) as [<-|Hne]; [|by rewrite orb_false_r].
        simpl. destruct (string_in t mark_events) eqn:Hq; [|by rewrite orb_false_r].
        simpl in Hin. apply negb_false_iff in Hin.
        by rewrite (seen_touched _ _ _ Hin Hq).
      * intros j s' t' Hj. rewrite seen_snoc, (Hl j s' t' Hj).
        destruct (Nat.eqb_spec i j) as [<-|Hne]; [|by rewrite orb_false_r].
        simpl. destruct (String.eqb_spec t t') as [<-|Hne]; [|by rewrite orb_false_r].
        rewrite orb_true_r. simpl. rewrite andb_false_r.
        by destruct (string_in t mark_events), (seen evs i t).
  - (* no such slider *)
    split; try done.
    + intros j s' Hj. rewrite touched_by_snoc, (Ht j s' Hj).
      destruct (Nat.eqb_spec i j) as [<-|Hne]; [congruence|by rewrite orb_false_r].
    + intros j s' t' Hj. rewrite seen_snoc, (Hl j s' t' Hj).
      destruct (Nat.eqb_spec i j) as [<-|Hne]; [congruence|by rewrite orb_false_r].
Qed.

Lemma gate_run_snoc evs ev : gate_run (evs ++ [ev]) = dispatch (gate_run evs) ev.
Proof. unfold gate_run. by rewrite fold_left_app. Qed.

Lemma gate_inv_run evs : gate_inv evs (gate_run evs).
Proof.
  induction evs as [|[i t] evs IH] using rev_ind; [apply gate_inv_on_load|].
  rewrite gate_run_snoc. by apply gate_inv_dispatch.
Qed.

(** Without a submit button [on_load] returns at once and leaves the page
    alone. *)
Lemma on_load_no_button msg sliders :
  on_load (Page None msg sliders) = Page None msg sliders.
Proof. reflexivity. Qed.

Lemma gate_state_run evs :
  gate_state (gate_run evs)
  = (Some (negb (forallb (touched_by evs) [0; 1; 2; 3]%nat)),
     Some (if forallb (touched_by evs) [0; 1; 2; 3]%nat then "none" else "block"),
     map (fun i => Some (if touched_by evs i then "1" else "0")) [0; 1; 2; 3]%nat).
Proof.
  destruct (gate_inv_run evs) as [Hb Hm Hlen Ht _]. unfold gate_state.
  destruct (sliders (gate_run evs)) as [|s0 [|s1 [|s2 [|s3 [|? ?]]]]]; try discriminate.
  pose proof (Ht 0%nat s0 eq_refl) as H0. pose proof (Ht 1%nat s1 eq_refl) as H1.
  pose proof (Ht 2%nat s2 eq_refl) as H2. pose proof (Ht 3%nat s3 eq_refl) as H3.
  assert (forallb is_touched [s0; s1; s2; s3] = forallb (touched_by evs) [0; 1; 2; 3]%nat) as E.
  { unfold is_touched. simpl. rewrite H0, H1, H2, H3.
    by destruct (touched_by evs 0), (touched_by evs 1), (touched_by evs 2), (touched_by evs 3). }
  rewrite Hb, Hm, E. simpl. by rewrite H0, H1, H2, H3.
Qed.

Lemma locked_run evs :
  locked (gate_run evs) = negb (forallb (touched_by evs) [0; 1; 2; 3]%nat).
Proof.
  pose proof (gate_state_run evs) as H. unfold gate_state in H.
  unfold locked. injection H as Hb _ _. by rewrite Hb.
Qed.

Lemma touched_by_perm evs evs' i : evs ≡ₚ evs' -> touched_by evs i = touched_by evs' i.
Proof.
  intros HP. apply eq_true_iff_eq. unfold touched_by. rewrite !existsb_exists.
  split; intros (ev & Hin & H); exists ev; split; try done;
    apply list_elem_of_In; apply list_elem_of_In in Hin;
    first [by rewrite <-HP | by rewrite HP].
Qed.

(** C9. With the four sliders of a trial page, after any sequence of events
    the Continue button is disabled exactly as long as some slider has
    received no qualifying event; the message shows exactly then; the order
    of the events does not matter; an event on a slider already touched
    changes nothing the gate shows; once enabled the button stays so. *)
Theorem C9_gate_needs_all_four_sliders (evs : list (nat * string)) :
  locked (gate_run evs) = negb (forallb (touched_by evs) [0; 1; 2; 3]%nat)
  /\ msg (gate_run evs) = Some (if locked (gate_run evs) then "block" else "none")
  /\ (forall evs', evs ≡ₚ evs' -> gate_state (gate_run evs') = gate_state (gate_run evs))
  /\ (forall i type, touched_by evs i = true ->
        gate_state (gate_run (evs ++ [(i, type)])) = gate_state (gate_run evs))
  /\ (forall more, locked (gate_run evs) = false -> locked (gate_run (evs ++ more)) = false).
Proof.
  split; [apply locked_run|]. split; [|split; [|split]].
  - pose proof (gate_state_run evs) as H. unfold gate_state in H.
    rewrite locked_run. injection H as _ Hm _. rewrite Hm. simpl.
    by destruct (touched_by evs 0), (touched_by evs 1), (touched_by evs 2), (touched_by evs 3).
  - intros evs' HP. rewrite !gate_state_run. simpl.
    by rewrite !(touched_by_perm evs evs' _ HP).
  - intros i type Hi. rewrite !gate_state_run.
    assert (forall j, touched_by (evs ++ [(i, type)]) j = touched_by evs j) as E.
    { intros j. rewrite touched_by_snoc.
      destruct (Nat.eqb_spec i j) as [<-|?]; [by rewrite Hi|by rewrite orb_false_r]. }
    simpl. by rewrite !E.
  - intros more. rewrite !locked_run, !negb_false_iff, !forallb_forall.
    intros H i Hi. specialize (H i Hi). unfold touched_by in *.
    rewrite existsb_app. by rewrite H.
Qed.

Lemma C9_gate_needs_all_four_sliders_witness :
  locked (gate_run [(0%nat, "focus"); (2%nat, "input"); (1%nat, "keydown")]) = true
  /\ gate_state (gate_run [(1%nat, "keydown"); (0%nat, "focus"); (2%nat, "input")])
     = gate_state (gate_run [(0%nat, "focus"); (2%nat, "input"); (1%nat, "keydown")])
  /\ gate_state (gate_run ([(0%nat, "focus"); (2%nat, "input"); (1%nat, "keydown")]
                           ++ [(2%nat, "change")]))
     = gate_state (gate_run [(0%nat, "focus"); (2%nat, "input"); (1%nat, "keydown")])
  /\ locked (gate_run ([(3%nat, "mousedown"); (0%nat, "focus"); (2%nat, "input");
                        (1%nat, "keydown")] ++ [(3%nat, "mouseup"); (0%nat, "input")])) = false.
Proof.
  split; [|split; [|split]].
  - apply (C9_gate_needs_all_four_sliders
             [(0%nat, "focus"); (2%nat, "input"); (1%nat, "keydown")]).
  - apply (C9_gate_needs_all_four_sliders
             [(0%nat, "focus"); (2%nat, "input"); (1%nat, "keydown")]).
    apply (bool_decide_unpack _). vm_compute. exact I.
  - apply (C9_gate_needs_all_four_sliders
             [(0%nat, "focus"); (2%nat, "input"); (1%nat, "keydown")]).
    reflexivity.
  - apply (C9_gate_needs_all_four_sliders
             [(3%nat, "mousedown"); (0%nat, "focus"); (2%nat, "input"); (1%nat, "keydown")]).
    reflexivity.
Defined.

(** ** Randomization *)

Lemma shuffle_loop_length {A} m : forall g (a : list A),
  length (shuffle_loop m g a) = length a.
Proof.
  induction m as [|m IH]; intros g a; cbn [shuffle_loop]; [done|].
  destruct (a !! m) as [t|]; [|done].
  destruct (a !! (g 0%nat mod S m)%nat) as [x|]; [|done].
  by rewrite IH, !length_insert.
Qed.

Lemma shuffle_loop_perm {A} m : forall g (a : list A), shuffle_loop m g a ≡ₚ a.
Proof.
  induction m as [|m IH]; intros g a; cbn [shuffle_loop]; [done|].
  destruct (a !! m) as [t|] eqn:Ht; [|done].
  destruct (a !! (g 0%nat mod S m)%nat) as [x|] eqn:Hx; [|done].
  rewrite IH. by apply Permutation_insert_swap.
Qed.

(** Every round of the loop finds both elements: the fallback branch of
    the model is never taken. *)
Lemma shuffle_loop_step {A} m g (a : list A) :
  (S m <= length a)%nat ->
  exists t x, a !! m = Some t /\ a !! (g 0%nat mod S m)%nat = Some x /\
    shuffle_loop (S m) g a
    = shuffle_loop m (skip 1 g) (<[(g 0%nat mod S m)%nat := t]> (<[m := x]> a)).
Proof.
  intros Hm.
  destruct (lookup_lt_is_Some_2 a m) as [t Ht]; [lia|].
  destruct (lookup_lt_is_Some_2 a (g 0%nat mod S m)%nat) as [x Hx].
  { pose proof (Nat.mod_upper_bound (g 0%nat) (S m)). lia. }
  exists t, x. cbn [shuffle_loop]. by rewrite Ht, Hx.
Qed.

Lemma shuffle_perm {A} g (a : list A) : shuffle g a ≡ₚ a.
Proof. apply shuffle_loop_perm. Qed.

Lemma shuffle_length {A} g (a : list A) : length (shuffle g a) = length a.
Proof. apply shuffle_loop_length. Qed.

Example shuffle_example :
  shuffle (fun k => k * k + 2)%nat ["a"; "b"; "c"; "d"; "e"; "f"] = ["b"; "a"; "e"; "f"; "d"; "c"].
Proof. reflexivity. Qed.

Lemma makeImageTrial_inj label : Inj (=) (=) (makeImageTrial label).
Proof. intros p q H. unfold makeImageTrial in H. by injection H. Qed.

Lemma paths_distinct :
  NoDup (malePaths ++ femalePaths) /\ length malePaths = 54%nat /\ length femalePaths = 54%nat.
Proof. split; [apply (bool_decide_unpack _); vm_compute; exact I|split; reflexivity]. Qed.

Lemma stimuli_makeImageTrial label paths : stimuli (map (makeImageTrial label) paths) = paths.
Proof.
  induction paths as [|p paths IH]; [done|].
  unfold stimuli in *. simpl in *. by f_equal.
Qed.

Lemma makeBlockTrials_perm g label paths :
  makeBlockTrials g label paths ≡ₚ map (makeImageTrial label) paths.
Proof. apply shuffle_perm. Qed.

(** C6. Whatever the draws, the shuffled trial list of a block is a
    permutation of the block's trial set: the same number of elements, a
    trial for a path exactly when the path is in the block, and no trial
    twice when no path is listed twice, as is the case for both blocks of
    the study (54 trials each). *)
Theorem C6_block_trials_are_a_permutation (g : rng) (label : string) (paths : list string) :
  makeBlockTrials g label paths ≡ₚ map (makeImageTrial label) paths
  /\ length (makeBlockTrials g label paths) = length paths
  /\ (forall p, makeImageTrial label p ∈ makeBlockTrials g label paths <-> p ∈ paths)
  /\ (NoDup paths -> NoDup (makeBlockTrials g label paths))
  /\ NoDup (maleTrials g) /\ length (maleTrials g) = 54%nat
  /\ NoDup (femaleTrials g) /\ length (femaleTrials g) = 54%nat.
Proof.
  assert (forall g label paths, NoDup paths -> NoDup (makeBlockTrials g label paths)) as Hnd.
  { intros g' l ps H. rewrite makeBlockTrials_perm.
    pose proof (makeImageTrial_inj l). by apply (NoDup_fmap_2 (makeImageTrial l)). }
  destruct paths_distinct as (Hd%NoDup_app & Hm & Hf).
  split; [apply makeBlockTrials_perm|]. split.
  { unfold makeBlockTrials. by rewrite shuffle_length, length_map. }
  split.
  { intros p. rewrite makeBlockTrials_perm.
    pose proof (makeImageTrial_inj label). apply (list_elem_of_fmap_inj (makeImageTrial label)). }
  split; [apply Hnd|].
  unfold maleTrials, femaleTrials, makeBlockTrials.
  rewrite !shuffle_length, !length_map.
  repeat split; try done; apply Hnd; tauto.
Qed.

Lemma C6_block_trials_are_a_permutation_witness :
  NoDup (makeBlockTrials (fun k => k * k + 2)%nat "Male"
           ["all_images/M.F.1_1.png"; "all_images/M.F.1_2.png"; "all_images/M.F.1_3.png"]).
Proof.
  apply (C6_block_trials_are_a_permutation (fun k => k * k + 2)%nat "Male"
           ["all_images/M.F.1_1.png"; "all_images/M.F.1_2.png"; "all_images/M.F.1_3.png"]).
  apply (bool_decide_unpack _). vm_compute. exact I.
Defined.

(** ** The timeline *)

Lemma shuffle_pair {A} (g : rng) (x y : A) :
  shuffle g [x; y] = if Nat.eqb (g 0%nat mod 2)%nat 0 then [y; x] else [x; y].
Proof.
  unfold shuffle. cbn [length shuffle_loop].
  pose proof (Nat.mod_upper_bound (g 0%nat) 2) as Hlt.
  change (skip 1 g 0%nat mod 1)%nat with (g 1%nat mod 1)%nat.
  rewrite Nat.mod_1_r.
  destruct (g 0%nat mod 2)%nat as [|[|n]]; [done|done|lia].
Qed.

Lemma blocks_order (g : rng) :
  blocks g = [Block maleIntro (maleTrials g); Block femaleIntro (femaleTrials g)]
  \/ blocks g = [Block femaleIntro (femaleTrials g); Block maleIntro (maleTrials g)].
Proof.
  unfold blocks. rewrite shuffle_pair.
  destruct (Nat.eqb _ 0); [by right|by left].
Qed.

(** Both block orders occur. *)
Lemma block_orders_reachable :
  (exists g, map intro (blocks g) = [maleIntro; femaleIntro])
  /\ (exists g, map intro (blocks g) = [femaleIntro; maleIntro]).
Proof.
  split; [exists (fun _ => 1%nat)|exists (fun _ => 0%nat)];
    unfold blocks; by rewrite shuffle_pair.
Qed.

Lemma stimuli_app l1 l2 : stimuli (l1 ++ l2) = (stimuli l1 ++ stimuli l2)%list.
Proof. unfold stimuli. apply omap_app. Qed.

Lemma stimuli_block_trials g label paths : stimuli (makeBlockTrials g label paths) ≡ₚ paths.
Proof.
  unfold stimuli. rewrite makeBlockTrials_perm. by rewrite <-(stimuli_makeImageTrial label paths) at 2.
Qed.

(** C7. Whatever the draws, the timeline is the fullscreen request, the
    preload step, the welcome and instruction screens, then the intro and
    the trials of one block, the intro and the trials of the other, and the
    thank-you screen; the two blocks are Male then Female or Female then
    Male; the preload manifest has no path twice and is, up to order, the
    list of the stimuli of the rating trials of the timeline. *)
Theorem C7_timeline_layout (g : rng) :
  exists first second,
    (first = Block maleIntro (maleTrials g) /\ second = Block femaleIntro (femaleTrials g)
     \/ first = Block femaleIntro (femaleTrials g) /\ second = Block maleIntro (maleTrials g))
    /\ timeline g = Return ([fullscreen; preload; welcome; instructions]
                            ++ [intro first] ++ trials first
                            ++ [intro second] ++ trials second
                            ++ [thankYou])%list
    /\ preload = Preload (malePaths ++ femalePaths)%list
    /\ NoDup (malePaths ++ femalePaths)
    /\ stimuli ([fullscreen; preload; welcome; instructions]
                ++ [intro first] ++ trials first
                ++ [intro second] ++ trials second
                ++ [thankYou]) ≡ₚ (malePaths ++ femalePaths)%list.
Proof.
  pose proof (stimuli_block_trials g "Male" malePaths) as Hm.
  pose proof (stimuli_block_trials (skip (length malePaths) g) "Female" femalePaths) as Hf.
  fold (maleTrials g) in Hm. fold (femaleTrials g) in Hf.
  destruct paths_distinct as (Hnd & _ & _).
  destruct (blocks_order g) as [E|E]; unfold timeline; rewrite E; cbn [lookup list_lookup].
  - eexists _, _. split; [by left|]. split; [reflexivity|]. split; [reflexivity|].
    split; [done|]. cbn [intro trials].
    rewrite !stimuli_app. change (stimuli [fullscreen; preload; welcome; instructions]) with (@nil string).
    change (stimuli [maleIntro]) with (@nil string). change (stimuli [femaleIntro]) with (@nil string).
    change (stimuli [thankYou]) with (@nil string).
    rewrite !app_nil_l, app_nil_r. by rewrite Hm, Hf.
  - eexists _, _. split; [by right|]. split; [reflexivity|]. split; [reflexivity|].
    split; [done|]. cbn [intro trials].
    rewrite !stimuli_app. change (stimuli [fullscreen; preload; welcome; instructions]) with (@nil string).
    change (stimuli [maleIntro]) with (@nil string). change (stimuli [femaleIntro]) with (@nil string).
    change (stimuli [thankYou]) with (@nil string).
    rewrite !app_nil_l, app_nil_r. rewrite Hm, Hf. apply Permutation_app_comm.
Qed.

(** ** Objects *)

Lemma prop_set_prop k k' v o :
  prop k (set_prop k' v o) = if String.eqb k' k then v else prop k o.
Proof.
  induction o as [|[k0 w] o IH]; simpl; [done|].
  destruct (String.eqb_spec k0 k') as [->|Hne]; simpl.
  - by destruct (String.eqb k' k).
  - rewrite IH. destruct (String.eqb_spec k0 k) as [->|?]; [|done].
    by destruct (String.eqb_spec k' k) as [->|?].
Qed.

Lemma prop_spread k a b :
  NoDup (keys b) ->
  prop k (spread a b) = if string_in k (keys b) then prop k b else prop k a.
Proof.
  unfold spread. revert a. induction b as [|[k0 v] b IH]; intros a Hnd; [done|].
  change (keys ((k0, v) :: b)) with (k0 :: keys b) in *.
  apply NoDup_cons in Hnd as [Hk0 Hnd]. cbn [fold_left fst snd prop].
  rewrite (IH _ Hnd), prop_set_prop. unfold string_in at 2. cbn [existsb].
  fold (string_in k (keys b)). rewrite (String.eqb_sym k k0).
  destruct (String.eqb_spec k0 k) as [<-|Hne]; [|done].
  simpl. destruct (string_in k0 (keys b)) eqn:E; [|done].
  by apply string_in_spec in E.
Qed.

Lemma write_trial_type c index s plugin_data w :
  prop "trial_type" (write c index s plugin_data w) = VStr (plugin_name s).
Proof. unfold write, spread. cbn [fold_left fst snd]. by rewrite !prop_set_prop. Qed.

Lemma write_is_survey c index s plugin_data w :
  is_survey (write c index s plugin_data w) = bool_decide (is_Some (stimulus_of s)).
Proof.
  unfold is_survey. rewrite write_trial_type.
  by destruct s.
Qed.

Lemma write_image c index s plugin_data w stimulus :
  well_made s -> stimulus_of s = Some stimulus ->
  prop "image" (write c index s plugin_data w) = VStr stimulus.
Proof.
  destruct s as [| | |stim b data]; try done. simpl. intros (Hnd & Hin & Hw) [= ->].
  unfold write, spread at 1 2. cbn [fold_left fst snd screen_data].
  rewrite !prop_set_prop. cbn [String.eqb Ascii.eqb Bool.eqb].
  by rewrite prop_spread, Hin.
Qed.

(** ** The persistence hooks *)

Lemma pushes_to_snoc coll tr t e :
  pushes_to coll (tr ++ [(t, e)])
  = (pushes_to coll tr ++
     match e with
     | Push c v => if String.eqb c coll then [(t, v)] else []
     | _ => []
     end)%list.
Proof.
  unfold pushes_to. rewrite omap_app. f_equal. simpl.
  destruct e as [c v| | |]; try done. by destruct (String.eqb c coll).
Qed.

Lemma stored_in_snoc coll tr t e :
  stored_in coll (tr ++ [(t, e)])
  = (stored_in coll tr ++
     match e with
     | Stored c v => if String.eqb c coll then [(t, v)] else []
     | _ => []
     end)%list.
Proof.
  unfold stored_in. rewrite omap_app. f_equal. simpl.
  destruct e as [|c v| |]; try done. by destruct (String.eqb c coll).
Qed.

Lemma navigations_snoc tr t e :
  navigations (tr ++ [(t, e)])
  = (navigations tr ++ match e with Navigate url => [(t, url)] | _ => [] end)%list.
Proof. unfold navigations. rewrite omap_app. f_equal. by destruct e. Qed.

Lemma logged_snoc level tr t e :
  logged level (tr ++ [(t, e)])
  = (logged level tr ++
     match e with
     | Console l m => if String.eqb l level then [m] else []
     | _ => []
     end)%list.
Proof.
  unfold logged. rewrite omap_app. f_equal. simpl.
  destruct e as [| |l m|]; try done. by destruct (String.eqb l level).
Qed.

(** What the per-step hook does to the page: nothing to the clock or the
    data store; one streamed write for a rating trial, whatever its
    settlement; a warning exactly when that write is rejected; no write to
    the aggregate collection and no navigation. *)
Lemma on_trial_finish_effects c how data w :
  now (on_trial_finish c how data w) = now w
  /\ allData (on_trial_finish c how data w) = allData w
  /\ pushes_to "responses_stream" (trace (on_trial_finish c how data w))
     = (pushes_to "responses_stream" (trace w) ++
        if is_survey data
        then [(now w, VObj ([("participant_id", VStr (pid c)); ("createdAt", VServerTimestamp)]
                            ++ trial_columns data))]
        else [])%list
  /\ logged "warn" (trace (on_trial_finish c how data w))
     = (logged "warn" (trace w) ++
        if is_survey data && is_rejected how then ["Partial save failed:"] else [])%list
  /\ pushes_to "responses" (trace (on_trial_finish c how data w)) = pushes_to "responses" (trace w)
  /\ navigations (trace (on_trial_finish c how data w)) = navigations (trace w).
Proof.
  unfold on_trial_finish, saveTrialRow. destruct (is_survey data).
  - destruct how; cbn [emit now allData trace is_rejected andb];
      rewrite ?pushes_to_snoc, ?logged_snoc, ?navigations_snoc; cbn [String.eqb Ascii.eqb Bool.eqb];
      by rewrite ?app_nil_r.
  - by rewrite !app_nil_r.
Qed.

(** What the final hook does: one write to the aggregate collection, issued
    at once with the payload of the moment; the navigation, if any, is due
    1200 ms after the write has settled. *)
Lemma on_finish_effects c how w :
  allData (on_finish c how w) = allData w
  /\ pushes_to "responses" (trace (on_finish c how w))
     = (pushes_to "responses" (trace w) ++ [(now w, VObj (final_payload c w))])%list
  /\ pushes_to "responses_stream" (trace (on_finish c how w)) = pushes_to "responses_stream" (trace w)
  /\ logged "warn" (trace (on_finish c how w)) = logged "warn" (trace w)
  /\ stored_in "responses" (trace (on_finish c how w))
     = (stored_in "responses" (trace w) ++
        match how with Acked d => [(now w + d, VObj (final_payload c w))]%N | _ => [] end)%list
  /\ navigations (trace (on_finish c how w))
     = (navigations (trace w) ++
        match how, completion_url c with
        | Pending, _ | _, EmptyString => []
        | Acked d, url | Rejected d, url => [(now w + d + 1200, url)]%N
        end)%list.
Proof.
  unfold on_finish, str_or.
  destruct how, (completion_url c);
    cbn [emit advance now allData trace];
    rewrite ?pushes_to_snoc, ?logged_snoc, ?navigations_snoc, ?stored_in_snoc;
    cbn [String.eqb Ascii.eqb Bool.eqb];
    by rewrite ?app_nil_r.
Qed.

(** ** The runner *)

Lemma stimuli_cons s steps :
  stimuli (s :: steps)
  = ((if bool_decide (is_Some (stimulus_of s)) then option_list (stimulus_of s) else []) ++ stimuli steps)%list.
Proof. unfold stimuli. simpl. by destruct (stimulus_of s). Qed.

Lemma filter_survey_snoc (rows : list obj) (data : obj) :
  filter (fun row => is_survey row = true) (rows ++ [data])%list
  = (filter (fun row => is_survey row = true) rows ++ if is_survey data then [data] else [])%list.
Proof.
  rewrite filter_app. f_equal. rewrite filter_cons, filter_nil.
  destruct (is_survey data) eqn:E; by case_decide.
Qed.

(** What running a list of steps adds to the page. *)
Lemma run_steps_effects c x steps : forall index w,
  pushes_to "responses" (trace (run_steps c x index steps w)) = pushes_to "responses" (trace w)
  /\ navigations (trace (run_steps c x index steps w)) = navigations (trace w)
  /\ length (pushes_to "responses_stream" (trace (run_steps c x index steps w)))
     = (length (pushes_to "responses_stream" (trace w)) + length (stimuli steps))%nat
  /\ length (filter (fun row => is_survey row = true) (allData (run_steps c x index steps w)))
     = (length (filter (fun row => is_survey row = true) (allData w)) + length (stimuli steps))%nat
  /\ length (logged "warn" (trace (run_steps c x index steps w)))
     = (length (logged "warn" (trace w)) + failed_saves (stream_settles x) index steps)%nat
  /\ (Forall well_made steps ->
      map (prop "image") (filter (fun row => is_survey row = true)
                                 (allData (run_steps c x index steps w)))
      = (map (prop "image") (filter (fun row => is_survey row = true) (allData w))
         ++ map VStr (stimuli steps))%list).
Proof.
  induction steps as [|s steps IH]; intros index w.
  { simpl. rewrite !Nat.add_0_r, !app_nil_r. done. }
  cbn [run_steps].
  set (w1 := advance (elapsed x index) w).
  set (data := write c index s (recorded x index) w1).
  set (w2 := World (now w1) (allData w1 ++ [data]) (trace w1)).
  destruct (on_trial_finish_effects c (stream_settles x index) data w2)
    as (_ & Hd & Hs & Hl & Hr & Hn).
  destruct (IH (S index) (on_trial_finish c (stream_settles x index) data w2))
    as (IH1 & IH2 & IH3 & IH4 & IH5 & IH6).
  assert (is_survey data = bool_decide (is_Some (stimulus_of s))) as Hsv
    by apply write_is_survey.
  rewrite IH1, IH2, IH3, IH4, IH5, Hd, Hs, Hl, Hr, Hn. clear IH1 IH2 IH3 IH4 IH5.
  cbn [allData trace advance w2 w1]. rewrite filter_survey_snoc, stimuli_cons, Hsv.
  cbn [failed_saves].
  split; [done|]. split; [done|].
  destruct (stimulus_of s) as [stim|] eqn:Es.
  - rewrite (bool_decide_eq_true_2 (is_Some (Some stim))) by eauto.
    cbn [andb option_list]. rewrite !length_app. cbn [length].
    change (option_list (Some stim)) with [stim].
    split; [simpl; lia|]. split; [simpl; lia|]. split; [destruct (is_rejected _); simpl; lia|].
    intros [Hw Hf]%Forall_cons. rewrite (IH6 Hf), Hd. cbn [allData w2 w1 advance].
    rewrite filter_survey_snoc, Hsv.
    rewrite (bool_decide_eq_true_2 (is_Some (Some stim))) by eauto.
    rewrite map_app, <-app_assoc. cbn [map app].
    unfold data. by rewrite (write_image _ _ _ _ _ stim Hw Es).
  - rewrite (bool_decide_eq_false_2 (is_Some None)) by (by intros [? ?]).
    cbn [andb]. rewrite !app_nil_r, !Nat.add_0_l. cbn [app].
    split; [done|]. split; [done|]. split; [done|].
    intros [Hw Hf]%Forall_cons. rewrite (IH6 Hf), Hd. cbn [allData w2 w1 advance].
    rewrite filter_survey_snoc, Hsv.
    rewrite (bool_decide_eq_false_2 (is_Some None)) by (by intros [? ?]).
    by rewrite app_nil_r.
Qed.

(** The clock, the data store and the streamed writes do not depend on how
    the backend settles the streamed writes. *)
Lemma run_steps_backend_independent c x f steps : forall index w w',
  now w = now w' -> allData w = allData w' ->
  pushes_to "responses_stream" (trace w) = pushes_to "responses_stream" (trace w') ->
  now (run_steps c x index steps w)
    = now (run_steps c (with_stream_settles x f) index steps w')
  /\ allData (run_steps c x index steps w)
    = allData (run_steps c (with_stream_settles x f) index steps w')
  /\ pushes_to "responses_stream" (trace (run_steps c x index steps w))
    = pushes_to "responses_stream" (trace (run_steps c (with_stream_settles x f) index steps w')).
Proof.
  induction steps as [|s steps IH]; intros index w w' Hn Hd Hp; [done|].
  cbn [run_steps with_stream_settles recorded elapsed stream_settles].
  assert (write c index s (recorded x index) (advance (elapsed x index) w)
          = write c index s (recorded x index) (advance (elapsed x index) w')) as ->.
  { unfold write, advance. cbn [now]. by rewrite Hn. }
  set (data := write c index s (recorded x index) (advance (elapsed x index) w')).
  set (w2 := World (now (advance (elapsed x index) w))
                   (allData (advance (elapsed x index) w) ++ [data])
                   (trace (advance (elapsed x index) w))).
  set (w2' := World (now (advance (elapsed x index) w'))
                    (allData (advance (elapsed x index) w') ++ [data])
                    (trace (advance (elapsed x index) w'))).
  destruct (on_trial_finish_effects c (stream_settles x index) data w2) as (A1 & A2 & A3 & _).
  destruct (on_trial_finish_effects c (f index) data w2') as (B1 & B2 & B3 & _).
  apply IH.
  - rewrite A1, B1. unfold w2, w2', advance. cbn [now]. by rewrite Hn.
  - rewrite A2, B2. unfold w2, w2', advance. cbn [allData]. by rewrite Hd.
  - rewrite A3, B3. unfold w2, w2', advance. cbn [trace now]. by rewrite Hp, Hn.
Qed.

(** ** Whole sessions *)

Lemma makeImageTrial_well_made label p : well_made (makeImageTrial label p).
Proof.
  unfold makeImageTrial, well_made.
  split; [apply (bool_decide_unpack _); vm_compute; exact I|]. split; reflexivity.
Qed.

Lemma block_trials_well_made g label paths : Forall well_made (makeBlockTrials g label paths).
Proof.
  rewrite makeBlockTrials_perm. apply Forall_forall.
  intros s (p & -> & _)%list_elem_of_fmap. apply makeImageTrial_well_made.
Qed.

(** The timeline is always built: 115 steps, 108 of them rating trials. *)
Lemma timeline_returns g :
  exists tl, timeline g = Return tl /\ length tl = 115%nat /\ Forall well_made tl
             /\ length (stimuli tl) = 108%nat.
Proof.
  pose proof (block_trials_well_made g "Male" malePaths) as Wm.
  pose proof (block_trials_well_made (skip (length malePaths) g) "Female" femalePaths) as Wf.
  pose proof (stimuli_block_trials g "Male" malePaths) as Sm%Permutation_length.
  pose proof (stimuli_block_trials (skip (length malePaths) g) "Female" femalePaths)
    as Sf%Permutation_length.
  assert (length (maleTrials g) = 54%nat) as Lm
      by (unfold maleTrials, makeBlockTrials; by rewrite shuffle_length, length_map).
  assert (length (femaleTrials g) = 54%nat) as Lf
      by (unfold femaleTrials, makeBlockTrials; by rewrite shuffle_length, length_map).
  fold (maleTrials g) in Wm, Sm. fold (femaleTrials g) in Wf, Sf.
  change (length malePaths) with 54%nat in Sm. change (length femalePaths) with 54%nat in Sf.
  destruct (blocks_order g) as [E|E]; unfold timeline; rewrite E; cbn [lookup list_lookup];
    eexists; (split; [reflexivity|]); cbn [intro trials].
  all: split; [rewrite !length_app, !length_cons, Lm, Lf; reflexivity|].
  all: split; [rewrite !Forall_app, !Forall_cons; repeat split; done|].
  all: rewrite !stimuli_app, !stimuli_cons, !length_app.
  all: change (stimuli []) with (@nil string); simpl; rewrite ?length_app, Sm, Sf; reflexivity.
Qed.

Lemma participant_id_some search e o :
  participant_id search e = Return o -> exists id, o = Some id.
Proof.
  unfold participant_id, or_else, bind_completion.
  destruct (getParam search "pid") as [[[|]|]|]; simpl; try discriminate;
    try (intros [= <-]; eauto; fail);
  destruct (getParam search "workerId") as [[[|]|]|]; simpl; try discriminate;
    try (intros [= <-]; eauto; fail);
  destruct (getParam search "PROLIFIC_PID") as [[[|]|]|]; simpl; try discriminate;
    intros [= <-]; eauto.
Qed.

Lemma session_inv x w :
  session x = Return w ->
  exists id tl,
    participant_id (search x) (ent x) = Return (Some id)
    /\ timeline (random x) = Return tl
    /\ w = run (Config (redirect_url x) id) x tl.
Proof.
  unfold session, bind_completion.
  destruct (participant_id (search x) (ent x)) as [o|] eqn:Hp; [|done].
  destruct (participant_id_some _ _ _ Hp) as [id ->].
  destruct (timeline (random x)) as [tl|]; [|done].
  intros [= <-]. by exists id, tl.
Qed.

(** A session whose participant completes every step ends in the final
    hook, run on the page the steps left. *)
Lemma run_complete c x tl :
  (length tl <= completed x)%nat ->
  run c x tl = on_finish c (final_settles x) (run_steps c x 0 tl (World 0 [] [])).
Proof.
  intros H. unfold run. rewrite take_ge by done.
  by rewrite (proj2 (Nat.leb_le _ _) H).
Qed.

(** A session left early never reaches the final hook. *)
Lemma run_incomplete c x tl :
  (completed x < length tl)%nat ->
  run c x tl = run_steps c x 0 (take (completed x) tl) (World 0 [] []).
Proof.
  intros H. unfold run. by rewrite (proj2 (Nat.leb_gt _ _) H).
Qed.

Lemma final_trials_rows w :
  length (final_trials w) = length (filter (fun row => is_survey row = true) (allData w))
  /\ map row_image (final_trials w)
     = map (prop "image") (filter (fun row => is_survey row = true) (allData w))
  /\ Forall (fun row => exists o, row = VObj o /\ keys o = row_keys) (final_trials w).
Proof.
  unfold final_trials. split; [by rewrite length_map|]. split.
  - rewrite map_map. by apply map_ext.
  - apply Forall_forall. intros row (data & -> & _)%list_elem_of_fmap. by eexists.
Qed.

Lemma run_steps_no_aggregate_store c x steps : forall index w,
  stored_in "responses" (trace (run_steps c x index steps w)) = stored_in "responses" (trace w).
Proof.
  induction steps as [|s steps IH]; intros index w; [done|].
  cbn [run_steps]. rewrite IH. unfold on_trial_finish, saveTrialRow.
  destruct (is_survey _); [|done].
  destruct (stream_settles x index); cbn [emit trace advance];
    by rewrite ?stored_in_snoc, ?app_nil_r.
Qed.

(** The page a completed session leaves before the final hook, and what the
    final hook then writes. *)
Lemma complete_session_payload x w :
  session x = Return w -> (115 <= completed x)%nat ->
  exists id tl w0,
    participant_id (search x) (ent x) = Return (Some id)
    /\ timeline (random x) = Return tl
    /\ w0 = run_steps (Config (redirect_url x) id) x 0 tl (World 0 [] [])
    /\ w = on_finish (Config (redirect_url x) id) (final_settles x) w0
    /\ pushes_to "responses" (trace w)
       = [(now w0, VObj (final_payload (Config (redirect_url x) id) w0))]
    /\ length (final_trials w0) = 108%nat
    /\ map row_image (final_trials w0) = map VStr (stimuli tl).
Proof.
  intros (id & tl & Hid & Htl & ->)%session_inv Hc.
  destruct (timeline_returns (random x)) as (tl' & Htl' & Hlen & Hwm & Hst).
  rewrite Htl in Htl'. injection Htl' as <-.
  exists id, tl, (run_steps (Config (redirect_url x) id) x 0 tl (World 0 [] [])).
  rewrite run_complete by lia.
  set (c := Config (redirect_url x) id). set (w0 := run_steps c x 0 tl (World 0 [] [])).
  destruct (run_steps_effects c x tl 0 (World 0 [] [])) as (Hr & _ & _ & Hn & _ & Hi).
  destruct (on_finish_effects c (final_settles x) w0) as (_ & Hp & _).
  destruct (final_trials_rows w0) as (Hl & Him & _).
  fold w0 in Hr, Hn, Hi. repeat split; try done.
  - by rewrite Hp, Hr.
  - rewrite Hl, Hn, Hst. reflexivity.
  - rewrite Him, (Hi Hwm). reflexivity.
Qed.

(** C4, as amended. In a session in which every step of the timeline is
    completed, the closing thank-you screen included, exactly one write
    goes to the aggregate collection; if the backend acknowledges it,
    exactly one record is appended there, and none if it does not.  Its
    payload carries the
    participant id and the timestamp once, and a list of 108 rows, one per
    rating trial in the order the trials were run; a row has the eleven
    columns of [row_keys], among which neither [participant_id] nor
    [createdAt]. *)
Theorem C4_one_aggregate_record_of_108_rows (x : session_input) (w : world) :
  session x = Return w ->
  (115 <= completed x)%nat ->
  exists id tl t payload rows,
    participant_id (search x) (ent x) = Return (Some id)
    /\ timeline (random x) = Return tl
    /\ pushes_to "responses" (trace w) = [(t, VObj payload)]
    /\ (forall d, final_settles x = Acked d ->
          stored_in "responses" (trace w) = [(N.add t d, VObj payload)])
    /\ ((forall d, final_settles x <> Acked d) -> stored_in "responses" (trace w) = [])
    /\ keys payload = ["participant_id"; "trials"; "client_version"; "createdAt"]
    /\ prop "participant_id" payload = VStr id
    /\ prop "createdAt" payload = VServerTimestamp
    /\ prop "trials" payload = VArr rows
    /\ length rows = 108%nat
    /\ length rows = (2 * (N.to_nat NUM_FACES_PER_SEX * 3 * 3))%nat
    /\ map row_image rows = map VStr (stimuli tl)
    /\ Forall (fun row => exists o, row = VObj o /\ keys o = row_keys
                                    /\ ("participant_id" ∉ keys o) /\ ("createdAt" ∉ keys o)) rows.
Proof.
  intros Hs Hc.
  destruct (complete_session_payload x w Hs Hc)
    as (id & tl & w0 & Hid & Htl & Hw0 & -> & Hp & Hl & Hi).
  set (c := Config (redirect_url x) id) in *.
  exists id, tl, (now w0), (final_payload c w0), (final_trials w0).
  destruct (on_finish_effects c (final_settles x) w0) as (_ & _ & _ & _ & Hst & _).
  repeat split; try done.
  - intros d Hd. rewrite Hst, Hd, Hw0. by rewrite run_steps_no_aggregate_store.
  - intros Hn. rewrite Hst, Hw0, run_steps_no_aggregate_store.
    destruct (final_settles x) as [d| |]; [by destruct (Hn d)|done|done].
  - destruct (final_trials_rows w0) as (_ & _ & Hk).
    eapply Forall_impl; [exact Hk|]. intros row (o & -> & Ho). exists o.
    rewrite Ho. repeat split; try done; apply (bool_decide_unpack _); vm_compute; exact I.
Qed.

Lemma C4_one_aggregate_record_of_108_rows_witness :
  exists id tl t payload rows,
    participant_id (search sample_session) (ent sample_session) = Return (Some id)
    /\ timeline (random sample_session) = Return tl
    /\ pushes_to "responses" (trace sample_world) = [(t, VObj payload)]
    /\ (forall d, final_settles sample_session = Acked d ->
          stored_in "responses" (trace sample_world) = [(N.add t d, VObj payload)])
    /\ ((forall d, final_settles sample_session <> Acked d) ->
        stored_in "responses" (trace sample_world) = [])
    /\ keys payload = ["participant_id"; "trials"; "client_version"; "createdAt"]
    /\ prop "participant_id" payload = VStr id
    /\ prop "createdAt" payload = VServerTimestamp
    /\ prop "trials" payload = VArr rows
    /\ length rows = 108%nat
    /\ length rows = (2 * (N.to_nat NUM_FACES_PER_SEX * 3 * 3))%nat
    /\ map row_image rows = map VStr (stimuli tl)
    /\ Forall (fun row => exists o, row = VObj o /\ keys o = row_keys
                                    /\ ("participant_id" ∉ keys o) /\ ("createdAt" ∉ keys o)) rows.
Proof.
  apply (C4_one_aggregate_record_of_108_rows sample_session sample_world).
  - vm_compute. reflexivity.
  - vm_compute. lia.
Defined.

(** C4, as the claim words it, fails.  In the sample session left while the
    thank-you screen is shown, every rating trial of both blocks has been
    completed, recorded and streamed (108 of them), and nothing has been
    written to the aggregate collection: the final hook belongs to the end
    of the timeline, which the thank-you screen closes. *)
Lemma C4_trials_complete_without_aggregate_record :
  session session_before_thank_you = Return world_before_thank_you
  /\ timeline (random session_before_thank_you) = Return sample_timeline
  /\ stimuli (take (completed session_before_thank_you) sample_timeline)
     = stimuli sample_timeline
  /\ length (stimuli sample_timeline) = 108%nat
  /\ length (recorded_rows world_before_thank_you) = 108%nat
  /\ length (pushes_to "responses_stream" (trace world_before_thank_you)) = 108%nat
  /\ pushes_to "responses" (trace world_before_thank_you) = [].
Proof. vm_compute. repeat split. Qed.

Lemma session_with_stream_settles x f id tl :
  participant_id (search x) (ent x) = Return (Some id) ->
  timeline (random x) = Return tl ->
  session (with_stream_settles x f)
  = Return (run (Config (redirect_url x) id) (with_stream_settles x f) tl).
Proof.
  intros Hid Htl. unfold session.
  cbn [with_stream_settles search ent random redirect_url].
  by rewrite Hid, Htl.
Qed.

(** C5. Let the backend settle the streamed writes in any other way [f]
    (rejecting some, or all, or never answering).  The session still
    returns; the runner has recorded the same steps; the same streamed
    writes were issued, one per completed rating trial and none twice; the
    final write is the same; every rejected streamed write has been logged
    once as a warning.  In particular, when every step is completed, the
    final record holds the 108 rows of all the rating trials, in the order
    they were run, whatever the streamed writes met. *)
Theorem C5_partial_save_failure_is_harmless
    (x : session_input) (f : nat -> settlement) (w : world) :
  session x = Return w ->
  exists w' tl,
    session (with_stream_settles x f) = Return w'
    /\ timeline (random x) = Return tl
    /\ allData w' = allData w
    /\ pushes_to "responses_stream" (trace w') = pushes_to "responses_stream" (trace w)
    /\ pushes_to "responses" (trace w') = pushes_to "responses" (trace w)
    /\ length (pushes_to "responses_stream" (trace w'))
       = length (stimuli (take (completed x) tl))
    /\ length (logged "warn" (trace w')) = failed_saves f 0 (take (completed x) tl)
    /\ ((115 <= completed x)%nat ->
        exists t payload rows,
          pushes_to "responses" (trace w') = [(t, VObj payload)]
          /\ prop "trials" payload = VArr rows
          /\ length rows = 108%nat
          /\ map row_image rows = map VStr (stimuli tl)).
Proof.
  intros Hs. destruct (session_inv x w Hs) as (id & tl & Hid & Htl & ->).
  pose proof (session_with_stream_settles x f id tl Hid Htl) as Hs'.
  set (c := Config (redirect_url x) id) in *. set (x' := with_stream_settles x f) in *.
  exists (run c x' tl), tl. split; [done|]. split; [done|].
  set (steps := take (completed x) tl).
  destruct (run_steps_backend_independent c x f steps 0 (World 0 [] []) (World 0 [] [])
              eq_refl eq_refl eq_refl) as (Hn & Hd & Hp).
  destruct (run_steps_effects c x steps 0 (World 0 [] [])) as (Hr & _).
  destruct (run_steps_effects c x' steps 0 (World 0 [] [])) as (Hr' & _ & Hps & _ & Hl & _).
  fold x' in Hn, Hd, Hp.
  assert (allData (run c x' tl) = allData (run c x tl)
          /\ pushes_to "responses_stream" (trace (run c x' tl))
             = pushes_to "responses_stream" (trace (run c x tl))
          /\ pushes_to "responses" (trace (run c x' tl))
             = pushes_to "responses" (trace (run c x tl))
          /\ length (pushes_to "responses_stream" (trace (run c x' tl))) = length (stimuli steps)
          /\ length (logged "warn" (trace (run c x' tl))) = failed_saves f 0 steps) as H.
  { unfold run. change (completed x') with (completed x). change (final_settles x') with (final_settles x).
    fold steps. destruct (length tl <=? completed x)%nat.
    - destruct (on_finish_effects c (final_settles x) (run_steps c x 0 steps (World 0 [] [])))
        as (A1 & A2 & A3 & _).
      destruct (on_finish_effects c (final_settles x) (run_steps c x' 0 steps (World 0 [] [])))
        as (B1 & B2 & B3 & B4 & _).
      rewrite A1, A2, A3, B1, B2, B3, B4, Hr, Hr', Hps, Hl, <-Hd, <-Hn.
      unfold final_payload, final_trials. rewrite <-Hd. by rewrite Hp.
    - by rewrite Hps, Hl, <-Hd, Hp, Hr, Hr'. }
  destruct H as (H1 & H2 & H3 & H4 & H5). repeat split; try assumption.
  intros Hc.
  destruct (complete_session_payload x' (run c x' tl) Hs' Hc)
    as (id' & tl' & w0 & Hid' & Htl' & _ & _ & Hpush & Hlen & Him).
  change (random x') with (random x) in Htl'. rewrite Htl in Htl'. injection Htl' as <-.
  exists (now w0), (final_payload (Config (redirect_url x') id') w0), (final_trials w0).
  by repeat split.
Qed.

Lemma C5_partial_save_failure_is_harmless_witness :
  exists w' tl,
    session (with_stream_settles sample_session
               (fun i => if Nat.eqb i 9 then Rejected 5 else Acked 5)) = Return w'
    /\ timeline (random sample_session) = Return tl
    /\ allData w' = allData sample_world
    /\ pushes_to "responses_stream" (trace w') = pushes_to "responses_stream" (trace sample_world)
    /\ pushes_to "responses" (trace w') = pushes_to "responses" (trace sample_world)
    /\ length (pushes_to "responses_stream" (trace w'))
       = length (stimuli (take (completed sample_session) tl))
    /\ length (logged "warn" (trace w'))
       = failed_saves (fun i => if Nat.eqb i 9 then Rejected 5 else Acked 5) 0
                      (take (completed sample_session) tl)
    /\ ((115 <= completed sample_session)%nat ->
        exists t payload rows,
          pushes_to "responses" (trace w') = [(t, VObj payload)]
          /\ prop "trials" payload = VArr rows
          /\ length rows = 108%nat
          /\ map row_image rows = map VStr (stimuli tl)).
Proof.
  apply (C5_partial_save_failure_is_harmless sample_session
           (fun i => if Nat.eqb i 9 then Rejected 5 else Acked 5) sample_world).
  vm_compute. reflexivity.
Defined.

Example one_warning_for_the_failed_save :
  logged "warn"
    (trace (match session (with_stream_settles sample_session
                             (fun i => if Nat.eqb i 9 then Rejected 5 else Acked 5)) with
            | Return w => w
            | Throw _ => World 0 [] []
            end))
  = ["Partial save failed:"].
Proof. vm_compute. reflexivity. Qed.

(** C1. A navigation happens only from the final hook: it goes to the
    configured URL and is due at least 1200 ms after the one write to the
    aggregate collection was issued, never before.  With a URL configured,
    every step completed and the final write acknowledged [d] ms after it
    was issued, the record is appended at that moment and the one navigation
    is due 1200 ms later.  (A rejected final write is followed by the same
    navigation; a write that never settles, an empty URL as shipped, or a
    session left early, by none.) *)
Theorem C1_redirect_follows_the_final_save (x : session_input) (w : world) :
  session x = Return w ->
  (forall tn url, (tn, url) ∈ navigations (trace w) ->
     url = redirect_url x /\ url <> "" /\
     exists tp payload, pushes_to "responses" (trace w) = [(tp, payload)]
                        /\ (tp + 1200 <= tn)%N)
  /\ (forall d, redirect_url x <> "" -> (115 <= completed x)%nat ->
        final_settles x = Acked d ->
        exists tp payload,
          pushes_to "responses" (trace w) = [(tp, payload)]
          /\ stored_in "responses" (trace w) = [(N.add tp d, payload)]
          /\ navigations (trace w) = [(N.add (N.add tp d) 1200, redirect_url x)])
  /\ (forall d, redirect_url x <> "" -> (115 <= completed x)%nat ->
        final_settles x = Rejected d ->
        exists tp payload,
          pushes_to "responses" (trace w) = [(tp, payload)]
          /\ stored_in "responses" (trace w) = []
          /\ navigations (trace w) = [(N.add (N.add tp d) 1200, redirect_url x)])
  /\ (final_settles x = Pending \/ redirect_url x = CLOUDRESEARCH_COMPLETION_URL
      \/ (completed x < 115)%nat -> navigations (trace w) = []).
Proof.
  intros (id & tl & Hid & Htl & ->)%session_inv.
  destruct (timeline_returns (random x)) as (tl' & Htl' & Hlen & _).
  rewrite Htl in Htl'. injection Htl' as <-.
  set (c := Config (redirect_url x) id).
  set (w0 := run_steps c x 0 tl (World 0 [] [])).
  destruct (run_steps_effects c x tl 0 (World 0 [] [])) as (Hr & Hn & _).
  destruct (on_finish_effects c (final_settles x) w0) as (_ & Hp & _ & _ & Hst & Hnav).
  pose proof (run_steps_no_aggregate_store c x tl 0 (World 0 [] [])) as Hs0.
  fold w0 in Hr, Hn, Hs0. rewrite Hr in Hp. rewrite Hn in Hnav. rewrite Hs0 in Hst.
  cbn [completion_url c trace pushes_to navigations stored_in omap list_omap app] in Hp, Hnav, Hst.
  destruct (Nat.le_gt_cases 115 (completed x)) as [Hc|Hc].
  - rewrite run_complete by lia. fold c w0. rewrite Hp, Hnav, Hst.
    split; [|split; [|split]].
    + intros tn url Hin.
      destruct (final_settles x), (redirect_url x) as [|a u] eqn:Eu;
        try (by apply elem_of_nil in Hin);
        apply list_elem_of_singleton in Hin; injection Hin as -> ->;
        (split; [done|]); (split; [done|]); eexists _, _; (split; [reflexivity|]); lia.
    + intros d Hu _ ->. destruct (redirect_url x); [done|]. by eexists _, _.
    + intros d Hu _ ->. destruct (redirect_url x); [done|]. by eexists _, _.
    + intros [->|[->|?]]; [done| |lia]. by destruct (final_settles x).
  - rewrite run_incomplete by lia.
    destruct (run_steps_effects c x (take (completed x) tl) 0 (World 0 [] [])) as (_ & -> & _).
    split; [|split; [|split]]; try (intros; lia); try done.
    intros tn url Hin. by apply elem_of_nil in Hin.
Qed.

Lemma C1_redirect_follows_the_final_save_witness :
  exists tp payload,
    pushes_to "responses" (trace sample_world) = [(tp, payload)]
    /\ stored_in "responses" (trace sample_world) = [(N.add tp 50, payload)]
    /\ navigations (trace sample_world)
       = [(N.add (N.add tp 50) 1200, redirect_url sample_session)].
Proof.
  destruct (C1_redirect_follows_the_final_save sample_session sample_world) as (_ & H & _).
  - vm_compute. reflexivity.
  - apply (H 50%N).
    + discriminate.
    + vm_compute. lia.
    + reflexivity.
Defined.

Example sample_session_redirect :
  navigations (trace sample_world) = [(116250%N, "https://example.org/done")]
  /\ map fst (pushes_to "responses" (trace sample_world)) = [115000%N]
  /\ map fst (stored_in "responses" (trace sample_world)) = [115050%N].
Proof. vm_compute. repeat split. Qed.

(* ===================================================================== *)
(** * Further properties of the code *)
(* ===================================================================== *)

(** ** Paths and names *)

Lemma split_free sep s : free_of sep s = true -> split sep s = [s].
Proof.
  unfold free_of. induction s as [|c s IH]; [done|]. simpl.
  intros [Hc Hs]%andb_true_iff. apply negb_true_iff in Hc. rewrite Hc, (IH Hs). done.
Qed.

Lemma split_app sep a b :
  exists l, l <> [] /\ split sep (a ++ String sep b) = (l ++ split sep b)%list.
Proof.
  induction a as [|c a (l & Hl & IH)].
  - exists [""]. split; [done|]. rewrite string_app_nil_l. simpl. by rewrite Ascii.eqb_refl.
  - rewrite string_app_cons. cbn [split]. rewrite IH.
    destruct (Ascii.eqb c sep).
    + by exists ("" :: l).
    + destruct l as [|p l]; [done|]. by exists (String c p :: l).
Qed.

Lemma basename_app dir name :
  free_of "/" name = true -> basename (dir ++ "/" ++ name) = name.
Proof.
  intros Hn. unfold basename, pop.
  destruct (split_app "/" dir name) as (l & Hl & E).
  change ("/" ++ name) with (String "/" name). rewrite E, (split_free _ _ Hn).
  by rewrite last_snoc.
Qed.

(** X1. Only the part of a path after its last slash matters to
    [parseMeta]: whatever the directory, the metadata are those of the bare
    name. *)
Theorem parseMeta_ignores_directory (dir name : string) :
  free_of "/" name = true ->
  parseMeta (dir ++ "/" ++ name) = parseMeta name.
Proof.
  intros Hn. unfold parseMeta. fold (basename (dir ++ "/" ++ name)). fold (basename name).
  rewrite (basename_app dir name Hn).
  assert (basename name = name) as ->; [|done].
  unfold basename, pop. by rewrite (split_free _ _ Hn).
Qed.

Lemma parseMeta_ignores_directory_witness :
  parseMeta ("https://cdn.example.org/study/all_images" ++ "/" ++ "F.F.2_3.3.png")
  = parseMeta "F.F.2_3.3.png".
Proof.
  apply (parseMeta_ignores_directory "https://cdn.example.org/study/all_images" "F.F.2_3.3.png").
  reflexivity.
Defined.

(** ** Decimal numerals *)
Lemma parse_uint_acc d : forall acc,
  fold_left (fun acc c => (10 * acc + digit_value c)%N)
            (list_ascii_of_string (NilEmpty.string_of_uint d)) acc
  = (Unsigned.of_lu (Decimal.rev d) + acc * 10 ^ Unsigned.usize d)%N.
Proof.
  induction d; intros acc;
    cbn [NilEmpty.string_of_uint list_ascii_of_string fold_left Unsigned.usize];
    [simpl; lia|..];
    rewrite IHd, N.pow_succ_r';
    match goal with
    | |- context [Decimal.rev (?f d)] =>
        change (Decimal.rev (f d)) with (Decimal.revapp d (f Decimal.Nil));
        rewrite (Unsigned.of_lu_revapp d (f Decimal.Nil))
    end;
    cbn [Unsigned.of_lu]; unfold digit_value; simpl (nat_of_ascii _ - 48)%nat;
    match goal with
    | |- context [N.of_nat ?k] =>
        let v := eval vm_compute in (N.of_nat k) in change (N.of_nat k) with v
    end;
    generalize (10 ^ Unsigned.usize d)%N; intros P; ring.
Qed.

(** In the embedding, whose numerals are exact at every size, reading back
    the decimal numeral of a number gives the number. *)
Lemma parseInt10_number_to_string n : parseInt10 (number_to_string n) = n.
Proof.
  unfold parseInt10, number_to_string. rewrite parse_uint_acc.
  rewrite <-Unsigned.of_uint_alt. change (Pos.of_uint (N.to_uint n)) with (N.of_uint (N.to_uint n)).
  rewrite DecimalN.Unsigned.of_to. lia.
Qed.

Lemma all_digits_string_of_uint d :
  all_digits (NilEmpty.string_of_uint d) = true.
Proof. unfold all_digits. induction d; simpl; auto. Qed.

Lemma number_to_string_digits n :
  number_to_string n <> "" /\ all_digits (number_to_string n) = true.
Proof.
  split; [|apply all_digits_string_of_uint].
  unfold number_to_string. destruct n as [|p]; [done|]. simpl.
  pose proof (Unsigned.to_uint_nonnil p) as H.
  destruct (Pos.to_uint p); done.
Qed.

(** ** Evaluating the pattern on a name of the grammar *)

Lemma take_string_app a b :
  take_string (String.length (a ++ b) - String.length b) (a ++ b) = a.
Proof.
  rewrite string_length_app, Nat.add_sub.
  induction a as [|x a IH]; [by destruct b|].
  rewrite string_app_cons. simpl. by rewrite IH.
Qed.

Lemma orelse_None_r {A} (x : option A) : orelse x None = x.
Proof. by destruct x. Qed.

Lemma digit_not_underscore x : is_digit x = true -> ascii_eqb_i true "_" x = false.
Proof. destruct x as [[] [] [] [] [] [] [] []]; done. Qed.

Lemma rmatch_digit ic total s m k :
  rmatch ic total RDigit s m k
  = match s with String x s' => if is_digit x then k s' m else None | "" => None end.
Proof. reflexivity. Qed.

(** [\d+] in front of something that is not a digit, followed by a
    continuation that refuses digits, takes all the digits. *)
Lemma iterate_digits ic total k ds : forall fuel rest m,
  ds <> "" -> all_digits ds = true ->
  (String.length (ds ++ rest) < fuel)%nat ->
  (forall x r, rest = String x r -> is_digit x = false) ->
  (forall x r m', is_digit x = true -> k (String x r) m' = None) ->
  iterate (rmatch ic total RDigit) k fuel (ds ++ rest) m = k rest m.
Proof.
  unfold all_digits.
  induction ds as [|x ds IH]; intros fuel rest m Hne Hd Hf Hrest Hk; [done|].
  simpl in Hd. apply andb_true_iff in Hd as [Hx Hd].
  destruct fuel as [|fuel]; [lia|].
  rewrite string_app_cons in *. cbn [iterate]. rewrite rmatch_digit, Hx.
  simpl in Hf.
  assert ((String.length (ds ++ rest) <? String.length (String x (ds ++ rest)))%nat = true) as ->
    by (apply Nat.ltb_lt; simpl; lia).
  destruct ds as [|y ds].
  - rewrite string_app_nil_l in *.
    assert (iterate (rmatch ic total RDigit) k fuel rest m = None) as ->; [|done].
    destruct fuel as [|fuel]; [done|]. cbn [iterate]. rewrite rmatch_digit.
    destruct rest as [|z r]; [done|]. by rewrite (Hrest z r eq_refl).
  - rewrite (IH fuel rest m) by (done || lia).
    simpl in Hd. apply andb_true_iff in Hd as [Hy _].
    rewrite string_app_cons. by rewrite (Hk y _ m Hy), orelse_None_r.
Qed.

Lemma rmatch_seq ic total r1 r2 s m k :
  rmatch ic total (RSeq r1 r2) s m k
  = rmatch ic total r1 s m (fun s' m' => rmatch ic total r2 s' m' k).
Proof. reflexivity. Qed.

Lemma rmatch_group ic total i r s m k :
  rmatch ic total (RGroup i r) s m k
  = rmatch ic total r s m (fun s' m' =>
      k s' ((i, take_string (String.length s - String.length s') s) :: m')).
Proof. reflexivity. Qed.

Lemma rmatch_char ic total c x s m k :
  rmatch ic total (RChar c) (String x s) m k = if ascii_eqb_i ic c x then k s m else None.
Proof. reflexivity. Qed.

Lemma rmatch_class ic total cs x s m k :
  rmatch ic total (RClass cs) (String x s) m k
  = if existsb (fun c => ascii_eqb_i ic c x) cs then k s m else None.
Proof. reflexivity. Qed.

Lemma rmatch_plus ic total r s m k :
  rmatch ic total (RPlus r) s m k = iterate (rmatch ic total r) k (S (String.length s)) s m.
Proof. reflexivity. Qed.

Lemma META_RE_head t1 t2 ds tail k :
  (canonicalize t1 = "F"%char \/ canonicalize t1 = "M"%char) ->
  canonicalize t2 = "F"%char ->
  ds <> "" -> all_digits ds = true ->
  rmatch true
    (String.length (String t1 (String "." (String t2 (String "." (ds ++ String "_" tail))))))
    META_RE (String t1 (String "." (String t2 (String "." (ds ++ String "_" tail))))) [] k
  = rmatch true
      (String.length (String t1 (String "." (String t2 (String "." (ds ++ String "_" tail))))))
      META_TAIL tail [(2%nat, ds); (1%nat, String t1 (String "." (String t2 "")))] k.
Proof.
  intros Ht1 Ht2 Hne Hds.
  set (total := String.length _).
  change META_RE with
    (RSeq RBol (RSeq (RGroup 1 (RSeq (RClass ["F"; "M"]%char) (RSeq (RChar ".") (RChar "F"))))
      (RSeq (RChar ".") (RSeq (RGroup 2 (RPlus RDigit)) (RSeq (RChar "_") META_TAIL))))).
  rewrite rmatch_seq. cbn [rmatch]. unfold total at 1. rewrite Nat.eqb_refl.
  change (fun (s : string) (m : captures) (k0 : string -> captures -> option captures) =>
            match s with
            | "" => None
            | String x s' => if is_digit x then k0 s' m else None
            end) with (rmatch true total RDigit).
  assert (existsb (fun c => ascii_eqb_i true c t1) ["F"; "M"]%char = true) as ->.
  { cbn [existsb]. unfold ascii_eqb_i. destruct Ht1 as [-> | ->]; reflexivity. }
  assert (ascii_eqb_i true "F" t2 = true) as -> by (unfold ascii_eqb_i; by rewrite Ht2).
  change (ascii_eqb_i true "." ".") with true. cbv iota.
  change (String t1 (String "." (String t2 (String "." (ds ++ String "_" tail)))))
    with (String t1 (String "." (String t2 "")) ++ String "." (ds ++ String "_" tail)).
  rewrite take_string_app.
  rewrite iterate_digits; [| done | done | lia | | ].
  - cbv beta iota. change (ascii_eqb_i true "_" "_") with true. cbv iota.
    by rewrite take_string_app.
  - by intros x r [= <- <-].
  - intros x r m' Hx. cbv beta iota. by rewrite (digit_not_underscore x Hx).
Qed.


Lemma META_TAIL_eval total h suf ext m :
  (h = "1"%char \/ h = "2"%char \/ h = "3"%char) ->
  (suf = "" \/ suf = ".2" \/ suf = ".3") ->
  (upcase ext = "PNG" \/ upcase ext = "JPG" \/ upcase ext = "JPEG") ->
  rmatch true total META_TAIL (String h (suf ++ "." ++ ext)) m (fun _ m' => Some m')
  = Some ((5%nat, ext)
          :: (match suf with String _ d => [(4%nat, d)] | "" => [] end
              ++ (3%nat, String h "") :: m))%list.
Proof.
  intros Hh Hsuf Hext.
  destruct Hext as [H|[H|H]];
    [apply upcase_inv3 in H as (x & y & z & -> & Hx & Hy & Hz)
    |apply upcase_inv3 in H as (x & y & z & -> & Hx & Hy & Hz)
    |apply upcase_inv4 in H as (x & y & z & w & -> & Hx & Hy & Hz & Hw)];
    destruct Hh as [->|[->| ->]]; destruct Hsuf as [->|[->| ->]];
    cbv [String.append META_TAIL rseq rstr]; cbn [rmatch existsb];
    unfold ascii_eqb_i; rewrite ?Hx, ?Hy, ?Hz, ?Hw; reflexivity.
Qed.

Lemma free_of_app c a b : free_of c (a ++ b) = free_of c a && free_of c b.
Proof.
  unfold free_of. induction a as [|x a IH]; [done|].
  rewrite string_app_cons. simpl. by rewrite IH, andb_assoc.
Qed.

Lemma free_of_digits ds : all_digits ds = true -> free_of "/" ds = true.
Proof.
  unfold all_digits, free_of. induction ds as [|x ds IH]; [done|]. simpl.
  intros [Hx Hd]%andb_true_iff. rewrite (IH Hd), andb_true_r.
  destruct x as [[] [] [] [] [] [] [] []]; done.
Qed.

Lemma free_of_canonical x s :
  canonicalize x <> "/"%char -> free_of "/" s = true -> free_of "/" (String x s) = true.
Proof.
  unfold free_of. simpl. intros Hx ->. rewrite andb_true_r.
  destruct (Ascii.eqb_spec x "/") as [->|]; [by destruct Hx|done].
Qed.

Lemma well_formed_name_free name : well_formed_name name -> free_of "/" name = true.
Proof.
  intros (t1 & t2 & h & ds & suf & ext & -> & Ht1 & Ht2 & _ & Hds & Hh & Hsuf & Hext).
  apply free_of_canonical; [by destruct Ht1 as [-> | ->]|].
  apply free_of_canonical; [done|].
  apply free_of_canonical; [by rewrite Ht2|].
  change (String h (suf ++ "." ++ ext)) with (String h "" ++ suf ++ "." ++ ext).
  rewrite !free_of_app, (free_of_digits ds Hds).
  assert (free_of "/" ext = true) as ->.
  { destruct Hext as [H|[H|H]];
      [apply upcase_inv3 in H as (x & y & z & -> & Hx & Hy & Hz)
      |apply upcase_inv3 in H as (x & y & z & -> & Hx & Hy & Hz)
      |apply upcase_inv4 in H as (x & y & z & w & -> & Hx & Hy & Hz & Hw)];
      repeat (apply free_of_canonical; [by rewrite ?Hx, ?Hy, ?Hz, ?Hw|]); done. }
  destruct Hh as [->|[->| ->]], Hsuf as [->|[->| ->]]; reflexivity.
Qed.

Lemma parseMeta_grammar_eval (t1 t2 h : ascii) (ds suf ext : string) :
  (canonicalize t1 = "F"%char \/ canonicalize t1 = "M"%char) ->
  canonicalize t2 = "F"%char ->
  ds <> "" -> all_digits ds = true -> (parseInt10 ds <= MAX_SAFE_INTEGER)%N ->
  (h = "1"%char \/ h = "2"%char \/ h = "3"%char) ->
  (suf = "" \/ suf = ".2" \/ suf = ".3") ->
  (upcase ext = "PNG" \/ upcase ext = "JPG" \/ upcase ext = "JPEG") ->
  parseMeta (String t1 (String "." (String t2 ("." ++ ds ++ "_" ++ String h (suf ++ "." ++ ext)))))
  = Meta (Some (if String.eqb (String t1 (String "." (String t2 ""))) "F.F"
                then "Female" else "Male"))
         (Some (parseInt10 ds))
         (Some (String h ""))
         (Some (if Ascii.eqb h "1" then "Tall" else if Ascii.eqb h "2" then "Average" else "Short"))
         (match suf with String _ code => Some code | "" => None end)
         (Some (if String.eqb suf "" then "Attractive"
                else if String.eqb suf ".2" then "LessAttractive" else "VeryUnattractive")).
Proof.
  intros Ht1 Ht2 Hne Hds _ Hh Hsuf Hext.
  set (name := String t1 _).
  assert (well_formed_name name) as Hwf by (by exists t1, t2, h, ds, suf, ext).
  unfold parseMeta. fold (basename name).
  assert (basename name = name) as ->.
  { unfold basename, pop. by rewrite (split_free _ _ (well_formed_name_free _ Hwf)). }
  unfold str_match.
  change (suffixes name) with (name :: suffixes (String "." (String t2 ("." ++ ds ++ "_" ++ String h (suf ++ "." ++ ext))))).
  cbn [fold_right]. unfold name at 1 2.
  change (String t1 (String "." (String t2 ("." ++ ds ++ "_" ++ String h (suf ++ "." ++ ext)))))
    with (String t1 (String "." (String t2 (String "." (ds ++ String "_" (String h (suf ++ "." ++ ext))))))).
  rewrite (META_RE_head t1 t2 ds _ _ Ht1 Ht2 Hne Hds).
  rewrite (META_TAIL_eval _ h suf ext _ Hh Hsuf Hext).
  cbn [orelse].
  destruct Hh as [->|[->| ->]], Hsuf as [->|[->| ->]]; reflexivity.
Qed.

(** X2. What [parseMeta] makes of any name the pattern accepts whose digits
    denote a face up to [MAX_SAFE_INTEGER], in any letter case and with any
    number of leading zeros: the sex is "Female" only for the tag written
    exactly "F.F"; the face is the number the digits denote; the height
    code and its label; the attractiveness code, null without a suffix,
    and its label.  (Beyond [MAX_SAFE_INTEGER] the face is rounded to a
    double, which is left out here.) *)
Theorem parseMeta_of_grammar_name (t1 t2 h : ascii) (ds suf ext : string) :
  (canonicalize t1 = "F"%char \/ canonicalize t1 = "M"%char) ->
  canonicalize t2 = "F"%char ->
  ds <> "" -> all_digits ds = true -> (parseInt10 ds <= MAX_SAFE_INTEGER)%N ->
  (h = "1"%char \/ h = "2"%char \/ h = "3"%char) ->
  (suf = "" \/ suf = ".2" \/ suf = ".3") ->
  (upcase ext = "PNG" \/ upcase ext = "JPG" \/ upcase ext = "JPEG") ->
  parseMeta (String t1 (String "." (String t2 ("." ++ ds ++ "_" ++ String h (suf ++ "." ++ ext)))))
  = Meta (Some (if String.eqb (String t1 (String "." (String t2 ""))) "F.F"
                then "Female" else "Male"))
         (Some (parseInt10 ds))
         (Some (String h ""))
         (Some (if Ascii.eqb h "1" then "Tall" else if Ascii.eqb h "2" then "Average" else "Short"))
         (match suf with String _ code => Some code | "" => None end)
         (Some (if String.eqb suf "" then "Attractive"
                else if String.eqb suf ".2" then "LessAttractive" else "VeryUnattractive")).
Proof. apply parseMeta_grammar_eval. Qed.

Lemma parseMeta_of_grammar_name_witness :
  parseMeta "m.f.12_2.3.JpG"
  = Meta (Some "Male") (Some 12%N) (Some "2") (Some "Average") (Some "3")
         (Some "VeryUnattractive").
Proof.
  apply (parseMeta_of_grammar_name "m" "f" "2" "12" ".3" "JpG");
    first [discriminate | apply N.leb_le; reflexivity | vm_compute; auto].
Defined.

(** X3. The naming scheme and [parseMeta] are inverse for every face
    number up to [MAX_SAFE_INTEGER], not only the six of the study: the
    name built for a tag, a face, a height code and an attractiveness
    suffix is parsed back to exactly these.  (Larger numbers are left out:
    they are not all doubles, and from 1e21 on a number is rendered with an
    exponent, which the pattern refuses.) *)
Theorem parseMeta_fileName_any_face (sexTag h a : string) (face : N) :
  (face <= MAX_SAFE_INTEGER)%N ->
  sexTag ∈ ["M.F"; "F.F"] -> h ∈ HEIGHT_CODES -> a ∈ ATTR_CODES ->
  parseMeta (fileName sexTag face h a)
  = Meta (Some (if String.eqb sexTag "F.F" then "Female" else "Male"))
         (Some face)
         (Some h)
         (Some (if String.eqb h "1" then "Tall" else if String.eqb h "2" then "Average" else "Short"))
         (match a with String _ code => Some code | "" => None end)
         (Some (if String.eqb a "" then "Attractive"
                else if String.eqb a ".2" then "LessAttractive" else "VeryUnattractive")).
Proof.
  intros Hsafe Htag Hh Ha. unfold HEIGHT_CODES in Hh. unfold ATTR_CODES in Ha.
  destruct (number_to_string_digits face) as [Hne Hd].
  assert (parseInt10 (number_to_string face) <= MAX_SAFE_INTEGER)%N as Hsafe'
    by (by rewrite parseInt10_number_to_string).
  repeat match goal with
  | H : _ ∈ [] |- _ => by apply elem_of_nil in H
  | H : _ ∈ _ :: _ |- _ => apply elem_of_cons in H as [->|H]
  end;
  match goal with
  | |- parseMeta (fileName (String ?t1 (String _ (String ?t2 _))) _ (String ?h _) ?a) = _ =>
      transitivity
        (parseMeta (String t1 (String "." (String t2
           ("." ++ number_to_string face ++ "_" ++ String h (a ++ "." ++ "png"))))));
      [reflexivity|];
      rewrite (parseMeta_grammar_eval t1 t2 h (number_to_string face) a "png");
      [by rewrite parseInt10_number_to_string|auto..]
  end.
Qed.

Lemma parseMeta_fileName_any_face_witness :
  parseMeta (fileName "F.F" 250 "3" ".2")
  = Meta (Some "Female") (Some 250%N) (Some "3") (Some "Short") (Some "2")
         (Some "LessAttractive").
Proof.
  apply (parseMeta_fileName_any_face "F.F" "3" ".2" 250);
    first [apply N.leb_le; reflexivity | repeat constructor].
Defined.

(** ** The generator for any tag *)

Lemma buildFiles_prefix tag : buildFiles tag = map (String.append tag) (buildFiles "").
Proof. vm_compute. reflexivity. Qed.

(** X4. For any tag the generator yields 54 names, all different, ordered
    by face, then height code, then attractiveness suffix: the name of face
    [f + 1] with the [hi]-th height code and the [ai]-th suffix is at index
    [9 f + 3 hi + ai]. *)
Theorem buildFiles_any_tag (tag : string) :
  length (buildFiles tag) = 54%nat
  /\ NoDup (buildFiles tag)
  /\ (forall f hi ai h a,
        (f < 6)%nat -> HEIGHT_CODES !! hi = Some h -> ATTR_CODES !! ai = Some a ->
        buildFiles tag !! (9 * f + 3 * hi + ai)%nat
        = Some (fileName tag (N.of_nat (S f)) h a)).
Proof.
  split; [by rewrite buildFiles_prefix, length_map|]. split.
  - rewrite buildFiles_prefix. apply (NoDup_fmap_2 (String.append tag)).
    apply (bool_decide_unpack _). vm_compute. exact I.
  - intros f hi ai h a Hf Hh Ha.
    destruct f as [|[|[|[|[|[|f]]]]]]; try lia;
      destruct hi as [|[|[|hi]]]; try done; destruct ai as [|[|[|ai]]]; try done;
      injection Hh as <-; injection Ha as <-; reflexivity.
Qed.

Lemma buildFiles_any_tag_witness :
  buildFiles "X.Y" !! 52%nat = Some (fileName "X.Y" 6 "3" ".2").
Proof.
  destruct (buildFiles_any_tag "X.Y") as (_ & _ & H).
  apply (H 5 2 1)%nat; [lia|reflexivity|reflexivity].
Defined.

(** ** Reading the parameters *)

Lemma decode_loop_nonempty fuel c s r :
  decode_loop (S fuel) (String c s) = Return r -> r <> "".
Proof.
  cbn [decode_loop]. destruct (negb (Ascii.eqb c "%")).
  { destruct (decode_loop fuel s); [|done]. by intros [= <-]. }
  destruct (escaped_octet (String c s)) as [[b0 rest]|]; [|done].
  destruct (b0 <? 128)%nat.
  { destruct (decode_loop fuel rest); [|done]. by intros [= <-]. }
  destruct (continuation_count b0) as [n|]; [|done].
  destruct (escaped_octets n rest) as [[bs rest']|]; [|done].
  destruct (valid_utf8 (b0 :: bs)); [|done].
  destruct (decode_loop fuel rest'); [|done]. by intros [= <-].
Qed.

(** X5. [getParam] answers [null] exactly for a parameter that is absent
    or empty; otherwise it answers the decoded value, which is never the
    empty string, or throws, and what it throws is a URIError raised by the
    decoding of the value. *)
Theorem getParam_outcomes (search : URLSearchParams) (name : string) :
  (getParam search name = Return None <->
     get search name = None \/ get search name = Some "")
  /\ (forall s, getParam search name = Return (Some s) ->
        s <> "" /\ exists v, get search name = Some v /\ v <> ""
                             /\ decodeURIComponent v = Return s)
  /\ (forall err, getParam search name = Throw err ->
        err = "URIError" /\ exists v, get search name = Some v
                                      /\ decodeURIComponent v = Throw "URIError").
Proof.
  unfold getParam.
  destruct (get search name) as [[|c v]|] eqn:E; cbn [truthy from_option]; unfold id.
  - split; [split; [intros _; by right|done]|]. split; done.
  - unfold decodeURIComponent.
    change (String.length (String c v)) with (S (String.length v)).
    destruct (decode_loop (S (String.length v)) (String c v)) as [r|err] eqn:D;
      cbn [bind_completion].
    + split; [split; [done|by intros [|]]|]. split; [|done].
      intros s [= <-]. split; [by apply decode_loop_nonempty in D|].
      exists (String c v). by repeat split.
    + split; [split; [done|by intros [|]]|]. split; [done|].
      intros err' [= <-].
      assert (err = "URIError") as ->.
      { clear E. revert D. generalize (S (String.length v)) (String c v).
        intros fuel. induction fuel as [|fuel IH]; intros s; [done|].
        cbn [decode_loop]. destruct s as [|x s]; [done|].
        destruct (negb (Ascii.eqb x "%")).
        { destruct (decode_loop fuel s) eqn:D; [done|]. simpl. intros [= <-]. eauto. }
        destruct (escaped_octet (String x s)) as [[b0 rest]|]; [|by intros [= <-]].
        destruct (b0 <? 128)%nat.
        { destruct (decode_loop fuel rest) eqn:D; [done|]. simpl. intros [= <-]. eauto. }
        destruct (continuation_count b0) as [n|]; [|by intros [= <-]].
        destruct (escaped_octets n rest) as [[bs rest']|]; [|by intros [= <-]].
        destruct (valid_utf8 (b0 :: bs)); [|by intros [= <-]].
        destruct (decode_loop fuel rest') eqn:D; [done|]. simpl. intros [= <-]. eauto. }
      split; [done|]. by exists (String c v).
  - split; [split; [intros _; by left|done]|]. split; done.
Qed.

Lemma getParam_outcomes_witness :
  getParam [("workerId", "W42"); ("pid", "")] "pid" = Return None.
Proof.
  destruct (getParam_outcomes [("workerId", "W42"); ("pid", "")] "pid") as ([_ H] & _).
  apply H. right. reflexivity.
Defined.

Lemma getParam_usable search name v :
  get search name = Some v -> v <> "" -> no_percent v = true ->
  getParam search name = Return (Some v).
Proof.
  intros E Hv Hp. unfold getParam. rewrite E. destruct v as [|c v]; [done|].
  cbn [truthy from_option]. unfold id, decodeURIComponent.
  by rewrite decode_loop_plain.
Qed.

Lemma getParam_unused search name :
  get search name = None \/ get search name = Some "" -> getParam search name = Return None.
Proof. unfold getParam. by intros [-> | ->]. Qed.

Lemma getParam_malformed search name v :
  get search name = Some v -> decodeURIComponent v = Throw "URIError" ->
  getParam search name = Throw "URIError".
Proof.
  intros E D. unfold getParam. rewrite E. destruct v as [|c v]; [done|].
  cbn [truthy from_option]. unfold id. by rewrite D.
Qed.

(** X7. The first usable parameter wins and nothing after it is looked at: a
    parameter of lower priority may hold anything, even a value that cannot
    be decoded. *)
Theorem participant_id_short_circuits (search : URLSearchParams) (e : entropy) (v : string) :
  v <> "" -> no_percent v = true ->
  (get search "pid" = Some v -> participant_id search e = Return (Some v))
  /\ (get search "pid" = None \/ get search "pid" = Some "" ->
      get search "workerId" = Some v -> participant_id search e = Return (Some v))
  /\ (get search "pid" = None \/ get search "pid" = Some "" ->
      get search "workerId" = None \/ get search "workerId" = Some "" ->
      get search "PROLIFIC_PID" = Some v -> participant_id search e = Return (Some v)).
Proof.
  intros Hv Hp. unfold participant_id, or_else. repeat split.
  - intros E. rewrite (getParam_usable _ _ v E Hv Hp). by destruct v.
  - intros U E. rewrite (getParam_unused _ _ U), (getParam_usable _ _ v E Hv Hp). by destruct v.
  - intros U1 U2 E.
    rewrite (getParam_unused _ _ U1), (getParam_unused _ _ U2), (getParam_usable _ _ v E Hv Hp).
    by destruct v.
Qed.

Lemma participant_id_short_circuits_witness :
  participant_id [("PROLIFIC_PID", "50%"); ("workerId", "W42"); ("pid", "")]
                 (Entropy None "0.k2j" "lw3")
  = Return (Some "W42").
Proof.
  destruct (participant_id_short_circuits
              [("PROLIFIC_PID", "50%"); ("workerId", "W42"); ("pid", "")]
              (Entropy None "0.k2j" "lw3") "W42") as (_ & H & _).
  - discriminate.
  - reflexivity.
  - apply H; [right; reflexivity|reflexivity].
Defined.

(** X8. A value that cannot be decoded is fatal as soon as it is reached: the
    resolution throws, whatever the parameters of lower priority hold. *)
Theorem participant_id_malformed_is_fatal (search : URLSearchParams) (e : entropy) (v : string) :
  decodeURIComponent v = Throw "URIError" ->
  (get search "pid" = Some v -> participant_id search e = Throw "URIError")
  /\ (get search "pid" = None \/ get search "pid" = Some "" ->
      get search "workerId" = Some v -> participant_id search e = Throw "URIError")
  /\ (get search "pid" = None \/ get search "pid" = Some "" ->
      get search "workerId" = None \/ get search "workerId" = Some "" ->
      get search "PROLIFIC_PID" = Some v -> participant_id search e = Throw "URIError").
Proof.
  intros D. unfold participant_id, or_else. repeat split.
  - intros E. by rewrite (getParam_malformed _ _ v E D).
  - intros U E. by rewrite (getParam_unused _ _ U), (getParam_malformed _ _ v E D).
  - intros U1 U2 E.
    by rewrite (getParam_unused _ _ U1), (getParam_unused _ _ U2), (getParam_malformed _ _ v E D).
Qed.

Lemma participant_id_malformed_is_fatal_witness :
  participant_id [("workerId", "%zz"); ("PROLIFIC_PID", "P7")] (Entropy None "0.k2j" "lw3")
  = Throw "URIError".
Proof.
  destruct (participant_id_malformed_is_fatal
              [("workerId", "%zz"); ("PROLIFIC_PID", "P7")]
              (Entropy None "0.k2j" "lw3") "%zz") as (_ & H & _).
  - reflexivity.
  - apply H; [left; reflexivity|reflexivity].
Defined.

(** X9. With none of the three parameters usable the identifier is generated:
    the UUID of the page when [crypto.randomUUID] answers, and otherwise
    (absent, or throwing, which is caught) "pid_" followed by the random and
    the time parts.  Parameters of other names play no part. *)
Theorem participant_id_fallback (search : URLSearchParams) (e : entropy) :
  (get search "pid" = None \/ get search "pid" = Some "") ->
  (get search "workerId" = None \/ get search "workerId" = Some "") ->
  (get search "PROLIFIC_PID" = None \/ get search "PROLIFIC_PID" = Some "") ->
  participant_id search e
  = Return (Some (match crypto_randomUUID e with
                  | Some (Return uuid) => uuid
                  | Some (Throw _) | None =>
                      "pid_" ++ slice_from 2 (math_random_36 e) ++ date_now_36 e
                  end)).
Proof.
  intros U1 U2 U3. unfold participant_id, or_else.
  rewrite (getParam_unused _ _ U1), (getParam_unused _ _ U2), (getParam_unused _ _ U3).
  cbn [bind_completion truthy]. unfold safeUUID.
  by destruct (crypto_randomUUID e) as [[|]|].
Qed.

Lemma participant_id_fallback_witness :
  participant_id [("source", "mail"); ("pid", "")]
                 (Entropy (Some (Throw "SecurityError")) "0.k2j" "lw3")
  = Return (Some "pid_k2jlw3").
Proof.
  apply (participant_id_fallback [("source", "mail"); ("pid", "")]
           (Entropy (Some (Throw "SecurityError")) "0.k2j" "lw3"));
    first [left; reflexivity | right; reflexivity].
Defined.

Lemma decode_loop_app_plain s t : forall fuel,
  no_percent s = true -> (String.length (s ++ t) <= fuel)%nat ->
  decode_loop fuel (s ++ t)
  = bind_completion (decode_loop (fuel - String.length s) t) (fun r => Return (s ++ r)).
Proof.
  unfold no_percent. induction s as [|c s IH]; intros fuel Hs Hf.
  - rewrite string_app_nil_l, Nat.sub_0_r. by destruct (decode_loop fuel t).
  - simpl in Hs. apply andb_true_iff in Hs as [Hc Hs].
    rewrite string_app_cons in *. simpl in Hf. destruct fuel as [|fuel]; [lia|].
    cbn [decode_loop]. rewrite Hc, (IH fuel Hs) by lia. cbn [String.length Nat.sub].
    by destruct (decode_loop (fuel - String.length s) t).
Qed.

(** X6. A value whose last escape is cut short (a final percent sign, or a
    percent sign and a single character) cannot be decoded: [getParam]
    throws a URIError on it. *)
Theorem getParam_dangling_escape (search : URLSearchParams) (name s : string) (x : ascii) :
  no_percent s = true ->
  (get search name = Some (s ++ "%") -> getParam search name = Throw "URIError")
  /\ (get search name = Some (s ++ String "%" (String x "")) ->
      getParam search name = Throw "URIError").
Proof.
  intros Hs. split; intros E; apply (getParam_malformed _ _ _ E);
    unfold decodeURIComponent; rewrite (decode_loop_app_plain s _ _ Hs) by done;
    rewrite string_length_app, Nat.add_comm, Nat.add_sub; simpl;
    by destruct x as [[] [] [] [] [] [] [] []].
Qed.

Lemma getParam_dangling_escape_witness :
  getParam [("pid", "100%")] "pid" = Throw "URIError".
Proof.
  destruct (getParam_dangling_escape [("pid", "100%")] "pid" "100" "a"%char) as [H _].
  - reflexivity.
  - apply H. reflexivity.
Defined.

(** ** The gate on any page *)

(** X10. On any page that has the submit button, [on_load] disables it exactly
    when the page holds at least one range input: with none, the button is
    enabled at once and the message hidden.  Marks left on the inputs are
    reset, names are kept, and every input gets one listener per listened
    event type. *)
Theorem on_load_any_page (b : bool) (m : option string) (ss : list slider) :
  btn (on_load (Page (Some b) m ss)) = Some (negb (bool_decide (ss = [])))
  /\ msg (on_load (Page (Some b) m ss)) = Some (if bool_decide (ss = []) then "none" else "block")
  /\ sliders (on_load (Page (Some b) m ss))
     = map (fun s => Slider (name s) (Some "0") (listeners s ++ mark_events)%list) ss.
Proof.
  unfold on_load, checkAllTouched. cbn [btn msg sliders].
  rewrite !map_map. cbn [name touched listeners].
  assert (forallb is_touched
            (map (fun s => Slider (name s) (Some "0") (listeners s ++ mark_events)%list) ss)
          = bool_decide (ss = [])) as ->; [|done].
  destruct ss as [|s ss]; [done|]. by rewrite bool_decide_eq_false_2.
Qed.

(** X11. A listener runs once.  On the page of a trial, after any events, an
    event repeated at once changes nothing at all, and neither does an event
    of a type that is not listened to, nor one on an index beyond the
    sliders. *)
Theorem gate_events_without_effect (evs : list (nat * string)) (i : nat) (type : string) :
  gate_run (evs ++ [(i, type); (i, type)]) = gate_run (evs ++ [(i, type)])
  /\ (string_in type mark_events = false -> gate_run (evs ++ [(i, type)]) = gate_run evs)
  /\ ((4 <= i)%nat -> gate_run (evs ++ [(i, type)]) = gate_run evs).
Proof.
  assert (forall evs' p, gate_inv evs' p -> seen evs' i type = true \/ string_in type mark_events = false
                         \/ (4 <= i)%nat -> dispatch p (i, type) = p) as Hno.
  { intros evs' p [_ _ Hlen _ Hl] H. unfold dispatch.
    destruct (sliders p !! i) as [s|] eqn:Hs; [|done].
    rewrite (Hl i s type Hs).
    destruct H as [-> |[-> |H]]; [by rewrite andb_false_r|done|].
    apply lookup_lt_Some in Hs. lia. }
  split; [|split].
  - change (evs ++ [(i, type); (i, type)])%list with (evs ++ ([(i, type)] ++ [(i, type)]))%list.
    rewrite app_assoc, (gate_run_snoc (evs ++ [(i, type)])).
    apply (Hno _ _ (gate_inv_run _)). left.
    rewrite seen_snoc, Nat.eqb_refl, String.eqb_refl. by rewrite orb_true_r.
  - intros H. rewrite gate_run_snoc. apply (Hno _ _ (gate_inv_run _)). auto.
  - intros H. rewrite gate_run_snoc. apply (Hno _ _ (gate_inv_run _)). auto.
Qed.

Lemma gate_events_without_effect_witness :
  gate_run ([(0%nat, "focus"); (2%nat, "input")] ++ [(1%nat, "mouseup")])
  = gate_run [(0%nat, "focus"); (2%nat, "input")].
Proof.
  destruct (gate_events_without_effect [(0%nat, "focus"); (2%nat, "input")] 1 "mouseup")
    as (_ & H & _).
  apply H. reflexivity.
Defined.

(** ** Ratings *)




(** ** Streamed rows and the aggregate record *)




(** ** The trials of the timeline *)

Lemma block_trial_data g sexTag s :
  sexTag ∈ ["M.F"; "F.F"] ->
  s ∈ makeBlockTrials g (if String.eqb sexTag "F.F" then "Female" else "Male")
        (map (fun f => "all_images/" ++ f) (buildFiles sexTag)) ->
  exists face h a,
    face ∈ faces_upto NUM_FACES_PER_SEX /\ h ∈ HEIGHT_CODES /\ a ∈ ATTR_CODES
    /\ s = SurveyHtmlForm ("all_images/" ++ fileName sexTag face h a) "Continue"
             (trial_data sexTag face h a).
Proof.
  intros Htag. rewrite makeBlockTrials_perm.
  intros (p & -> & (f & -> & (face & h & a & Hf & Hh & Ha & ->)%buildFiles_elem)%list_elem_of_fmap)%list_elem_of_fmap.
  exists face, h, a. split; [done|]. split; [done|]. split; [done|].
  change (faces_upto NUM_FACES_PER_SEX) with [1%N; 2%N; 3%N; 4%N; 5%N; 6%N] in Hf.
  unfold HEIGHT_CODES in Hh. unfold ATTR_CODES in Ha.
  repeat match goal with
  | H : _ ∈ [] |- _ => by apply elem_of_nil in H
  | H : _ ∈ _ :: _ |- _ => apply elem_of_cons in H as [->|H]
  end;
  vm_compute; reflexivity.
Qed.

(** X14. Whatever the draws, every rating trial of the timeline shows an
    image of the study and carries the metadata of that very image: the
    block label is the sex parsed from the name ("Male" for the tag "M.F",
    "Female" for "F.F"), the face is one of the six, and no field but the
    attractiveness code of an image without suffix is null. *)
Theorem timeline_trials_are_labelled (g : rng) (tl : list screen) (i : nat)
    (stimulus button : string) (data : obj) :
  timeline g = Return tl ->
  tl !! i = Some (SurveyHtmlForm stimulus button data) ->
  exists sexTag face h a,
    sexTag ∈ ["M.F"; "F.F"] /\ face ∈ faces_upto NUM_FACES_PER_SEX
    /\ h ∈ HEIGHT_CODES /\ a ∈ ATTR_CODES
    /\ stimulus = "all_images/" ++ fileName sexTag face h a
    /\ data = trial_data sexTag face h a.
Proof.
  intros Htl Hi. apply list_elem_of_lookup_2 in Hi.
  assert (SurveyHtmlForm stimulus button data ∈ maleTrials g
          \/ SurveyHtmlForm stimulus button data ∈ femaleTrials g) as H.
  { destruct (blocks_order g) as [E|E]; unfold timeline in Htl; rewrite E in Htl;
      cbn [lookup list_lookup intro trials] in Htl; injection Htl as <-;
      repeat (rewrite elem_of_cons in Hi || rewrite elem_of_app in Hi);
      unfold fullscreen, preload, welcome, instructions, thankYou, maleIntro, femaleIntro,
        makeBlockIntro in Hi;
      repeat match type of Hi with
             | _ \/ _ => destruct Hi as [Hi|Hi]
             end; try discriminate Hi; try (by apply elem_of_nil in Hi); auto. }
  destruct H as [H|H].
  - destruct (block_trial_data g "M.F" _ ltac:(repeat constructor) H)
      as (face & h & a & Hf & Hh & Ha & [= -> _ ->]).
    exists "M.F", face, h, a. repeat split; try done. repeat constructor.
  - destruct (block_trial_data (skip (length malePaths) g) "F.F" _ ltac:(repeat constructor) H)
      as (face & h & a & Hf & Hh & Ha & [= -> _ ->]).
    exists "F.F", face, h, a. repeat split; try done. repeat constructor.
Qed.

Lemma timeline_trials_are_labelled_witness :
  exists sexTag face h a,
    sexTag ∈ ["M.F"; "F.F"] /\ face ∈ faces_upto NUM_FACES_PER_SEX
    /\ h ∈ HEIGHT_CODES /\ a ∈ ATTR_CODES
    /\ "all_images/M.F.1_1.3.png" = "all_images/" ++ fileName sexTag face h a
    /\ [ ("block", VStr "Male"); ("image", VStr "all_images/M.F.1_1.3.png");
         ("sex", VStr "Male"); ("face_id", VNum 1);
         ("height_code", VStr "1"); ("height_label", VStr "Tall");
         ("attract_code", VStr "3"); ("attract_label", VStr "VeryUnattractive") ]
       = trial_data sexTag face h a.
Proof.
  apply (timeline_trials_are_labelled (random sample_session) sample_timeline 5
           "all_images/M.F.1_1.3.png" "Continue");
    vm_compute; reflexivity.
Defined.

(** ** Sign-in *)

Lemma default_last_cons {A} (d x : A) (l : list A) :
  default d (last (x :: l)) = default x (last l).
Proof. rewrite last_cons. by destruct (last l). Qed.

Lemma auth_step_settled a ev :
  is_Some (resolved a) ->
  resolved (auth_step a ev) = resolved a /\ started (auth_step a ev) = started a.
Proof. intros [v Hv]. destruct ev; unfold auth_step, resolve; cbn [resolved]; by rewrite Hv. Qed.

Lemma auth_steps_settled evs : forall a,
  is_Some (resolved a) ->
  resolved (fold_left auth_step evs a) = resolved a
  /\ started (fold_left auth_step evs a) = started a.
Proof.
  induction evs as [|ev evs IH]; intros a Ha; [done|]. cbn [fold_left].
  destruct (auth_step_settled a ev Ha) as [E1 E2].
  destruct (IH (auth_step a ev)) as [-> ->]; [by rewrite E1|done].
Qed.

Lemma auth_steps_user_and_warnings evs : forall a,
  fbUser (fold_left auth_step evs a) = default (fbUser a) (last (state_changes evs))
  /\ length (warned (fold_left auth_step evs a))
     = (length (warned a) + length (filter (fun ev => sign_in_failed ev = true) evs))%nat.
Proof.
  induction evs as [|ev evs IH]; intros a; [simpl; split; [done|lia]|].
  cbn [fold_left]. destruct (IH (auth_step a ev)) as [-> ->]. clear IH.
  destruct ev as [user|]; unfold auth_step, resolve; cbn [resolved fbUser warned].
  - rewrite filter_cons_False by done.
    assert (state_changes (AuthStateChanged user :: evs) = user :: state_changes evs) as -> by done.
    rewrite default_last_cons. by destruct (resolved a).
  - rewrite filter_cons_True by done.
    assert (state_changes (SignInFailed :: evs) = state_changes evs) as -> by done.
    split; [by destruct (resolved a)|].
    destruct (resolved a); cbn [warned]; rewrite length_app; simpl; lia.
Qed.

(** X15. The run is started by the first report of the authentication
    service, whatever it is, and only once: the promise is resolved with
    what that report carries (a user, or null for a failed sign-in or for a
    state without user), later reports start nothing; with no report at all
    the run is never started.  [fbUser] follows the last reported state,
    and each failed sign-in is logged once. *)
Theorem run_starts_at_the_first_auth_report (evs : list auth_event) :
  resolved (ensureFirebaseAuth evs) = reported <$> head evs
  /\ started (ensureFirebaseAuth evs) = (if bool_decide (evs = []) then 0 else 1)%nat
  /\ fbUser (ensureFirebaseAuth evs) = default None (last (state_changes evs))
  /\ length (warned (ensureFirebaseAuth evs))
     = length (filter (fun ev => sign_in_failed ev = true) evs).
Proof.
  unfold ensureFirebaseAuth.
  destruct (auth_steps_user_and_warnings evs (Auth None None [] 0)) as [Hu Hw].
  split; [|split; [|split; [exact Hu|exact Hw]]].
  - destruct evs as [|ev evs]; [done|]. cbn [fold_left head fmap option_fmap option_map].
    destruct (auth_steps_settled evs (auth_step (Auth None None [] 0) ev)) as [-> _];
      by destruct ev; eauto.
  - destruct evs as [|ev evs]; [done|]. cbn [fold_left].
    destruct (auth_steps_settled evs (auth_step (Auth None None [] 0) ev)) as [_ ->];
      by destruct ev; eauto.
Qed.
